(** * Display-preferences synchronisation (store/displayPreferencesApi.ts)

    A shallow embedding of the Vuex module that pulls the user's display
    preferences from the server into the client settings store and pushes
    them back, together with the properties its specification states.

    Layout:
    - [Js]      the fragment of JavaScript values and conversions the module
                relies on (typeof, Boolean, Number, String, split, lodash
                toString, destr, the [in] operator);
    - [Store]   the module itself: castResponse, the four mutations and the
                four actions, run in a small state-and-exception monad over
                an explicit world (tracker state, settings store, heap of
                response objects, clock, snackbar, network log);
    - [Spec]    the vocabulary of the properties: the loops as folds, what a
                run sends and commits, frame relations, concrete worlds;
    - [Props]   the lemmas and the theorems. *)

From Stdlib Require Import ZArith Ascii String List Bool Lia.
From Stdlib Require Import DecimalString DecimalN DecimalPos.
From stdpp Require Import base option list strings gmap fin_maps pretty.

#[local] Set Warnings "-register-all".

Local Open Scope string_scope.
Local Open Scope list_scope.
Local Open Scope Z_scope.

(* ===================================================================== *)
(** * JavaScript values and conversions *)
(* ===================================================================== *)

Module Js.

(** Strings are sequences of 8-bit code units: the Latin-1 fragment of
    JavaScript's UTF-16 strings. *)

Definition chars (s : string) : list ascii := list_ascii_of_string s.
Definition of_chars (l : list ascii) : string := string_of_list_ascii l.

Definition code (c : ascii) : N := N_of_ascii c.

Definition is_digit (c : ascii) : bool := ((48 <=? code c) && (code c <=? 57))%N.

(** The characters [StringToNumber] trims: TAB, LF, VT, FF, CR, SP, NBSP. *)
Definition is_space (c : ascii) : bool :=
  let n := code c in
  (((9 <=? n) && (n <=? 13)) || (n =? 32) || (n =? 160))%N.

Definition lower (c : ascii) : ascii :=
  let n := code c in
  if ((65 <=? n) && (n <=? 90))%N then ascii_of_N (n + 32) else c.

(** [String.prototype.toLowerCase], on the ASCII letters. *)
Definition toLowerCase (s : string) : string := of_chars (map lower (chars s)).

Definition quote : ascii := ascii_of_N 34.

(** ** Numbers

    A finite non-zero Number is kept as the pair the language definition of
    [Number::toString] works with: its significant decimal digits [digits]
    (no leading or trailing zero) and the position [n] of the decimal point,
    so that the value is [0.digits * 10^n].

    The decimals are exact: there is no binary64 rounding in the model.  It
    agrees with the language on every Number written as [Number::toString]
    writes it (the digits of such a string are the Number's own, so reading
    it back loses nothing).  On other literals [StringToNumber] below keeps
    the exact decimal where the language rounds: a literal of more than 17
    significant digits is not rounded to the nearest binary64, one above the
    range is not turned into [Infinity], and one below it is not turned into
    a zero.  The theorems on the values of Numbers are therefore stated for
    strings that [Number::toString] wrote; on any other string only the type
    of the result is used. *)

Inductive number :=
| NaN
| Infinity (neg : bool)
| Zero (neg : bool)
| Finite (neg : bool) (digits : list ascii) (n : Z).

Definition is_zero_char (c : ascii) : bool := (code c =? 48)%N.

Fixpoint drop_zeros (l : list ascii) : list ascii :=
  match l with
  | c :: l' => if is_zero_char c then drop_zeros l' else l
  | [] => []
  end.

(** The Number written [ds * 10^e] (the digits read as an integer). *)
Definition mk_number (neg : bool) (ds : list ascii) (e : Z) : number :=
  let lead := drop_zeros ds in
  let sig := rev (drop_zeros (rev lead)) in
  match sig with
  | [] => Zero neg
  | _ => Finite neg sig (Z.of_nat (length lead) + e)
  end.

Definition number_of_N (n : N) : number :=
  mk_number false (chars (NilZero.string_of_uint (N.to_uint n))) 0.

Definition number_of_bool (b : bool) : number :=
  if b then number_of_N 1 else Zero false.

Definition zeros (k : Z) : list ascii := repeat "0"%char (Z.to_nat k).

Definition string_of_Z_abs (z : Z) : list ascii :=
  chars (NilZero.string_of_uint (N.to_uint (Z.abs_N z))).

(** [Number::toString] for radix 10. *)
Definition Number_toString (x : number) : string :=
  match x with
  | NaN => "NaN"
  | Zero _ => "0"
  | Infinity neg => if neg then "-Infinity" else "Infinity"
  | Finite neg ds n =>
      let k := Z.of_nat (length ds) in
      let body :=
        if (k <=? n) && (n <=? 21) then ds ++ zeros (n - k)
        else if (0 <? n) && (n <=? 21) then
          take (Z.to_nat n) ds ++ "."%char :: drop (Z.to_nat n) ds
        else if (-6 <? n) && (n <=? 0) then
          "0"%char :: "."%char :: zeros (- n) ++ ds
        else
          let e := n - 1 in
          let sign := if e <? 0 then "-"%char else "+"%char in
          match ds with
          | [d] => d :: "e"%char :: sign :: string_of_Z_abs e
          | d :: rest => d :: "."%char :: rest ++ "e"%char :: sign :: string_of_Z_abs e
          | [] => []
          end in
      of_chars (if neg then "-"%char :: body else body)
  end.

(** *** StringToNumber *)

Fixpoint drop_spaces (l : list ascii) : list ascii :=
  match l with
  | c :: l' => if is_space c then drop_spaces l' else l
  | [] => []
  end.

Definition trim (l : list ascii) : list ascii :=
  rev (drop_spaces (rev (drop_spaces l))).

(** The longest prefix of decimal digits, and what follows it. *)
Fixpoint span_digits (l : list ascii) : list ascii * list ascii :=
  match l with
  | c :: l' =>
      if is_digit c then let '(ds, r) := span_digits l' in (c :: ds, r)
      else ([], l)
  | [] => ([], [])
  end.

Definition N_of_digits (ds : list ascii) : N :=
  fold_left (fun acc c => acc * 10 + (code c - 48))%N ds 0%N.

Definition is_char (c d : ascii) : bool := Ascii.eqb c d.

(** ExponentPart (optional): [e] or [E], an optional sign, digits. *)
Definition exponent_part (l : list ascii) : option Z :=
  match l with
  | [] => Some 0
  | c :: l' =>
      if is_char c "e" || is_char c "E" then
        let '(neg, l'') :=
          match l' with
          | s :: r => if is_char s "-" then (true, r)
                      else if is_char s "+" then (false, r) else (false, l')
          | [] => (false, l')
          end in
        match span_digits l'' with
        | ((_ :: _) as ds, []) =>
            let e := Z.of_N (N_of_digits ds) in Some (if neg then - e else e)
        | _ => None
        end
      else None
  end.

Definition chars_eqb (l1 l2 : list ascii) : bool :=
  String.eqb (of_chars l1) (of_chars l2).

(** StrUnsignedDecimalLiteral, with the sign read before it. *)
Definition unsigned_decimal (neg : bool) (l : list ascii) : number :=
  if chars_eqb l (chars "Infinity") then Infinity neg
  else
    let '(ip, r1) := span_digits l in
    let '(fp, r2) :=
      match r1 with
      | c :: r => if is_char c "." then span_digits r else ([], r1)
      | [] => ([], r1)
      end in
    match ip ++ fp with
    | [] => NaN
    | ds =>
        match exponent_part r2 with
        | Some e => mk_number neg ds (e - Z.of_nat (length fp))
        | None => NaN
        end
    end.

Definition radix_digit (c : ascii) : option N :=
  let n := code c in
  if is_digit c then Some (n - 48)%N
  else if ((97 <=? n) && (n <=? 102))%N then Some (n - 87)%N
  else if ((65 <=? n) && (n <=? 70))%N then Some (n - 55)%N
  else None.

(** The digits of a NonDecimalIntegerLiteral, after its [0x], [0o] or [0b]. *)
Definition radix_literal (radix : N) (l : list ascii) : number :=
  match l with
  | [] => NaN
  | _ =>
      let step acc c :=
        match acc, radix_digit c with
        | Some a, Some d => if (d <? radix)%N then Some (a * radix + d)%N else None
        | _, _ => None
        end in
      match fold_left step l (Some 0%N) with
      | Some n => number_of_N n
      | None => NaN
      end
  end.

Definition radix_of (c : ascii) : option N :=
  if is_char c "x" || is_char c "X" then Some 16%N
  else if is_char c "o" || is_char c "O" then Some 8%N
  else if is_char c "b" || is_char c "B" then Some 2%N
  else None.

(** StringToNumber: the grammar of StringNumericLiteral, read exactly (see the
    note on Numbers above for what that leaves out). *)
Definition StringToNumber (s : string) : number :=
  match trim (chars s) with
  | [] => Zero false
  | c :: r =>
      let decimal :=
        if is_char c "-" then unsigned_decimal true r
        else if is_char c "+" then unsigned_decimal false r
        else unsigned_decimal false (c :: r) in
      match r with
      | p :: r' =>
          match (if is_char c "0" then radix_of p else None) with
          | Some radix => radix_literal radix r'
          | None => decimal
          end
      | [] => decimal
      end
  end.

(** ** Values *)

Inductive value :=
| VUndefined
| VNull
| VBool (b : bool)
| VNum (x : number)
| VStr (s : string)
| VArr (elems : list value)              (* an Array *)
| VObj (props : list (string * value))   (* a plain object, by its own properties *)
| VBoxed (prim : value)                  (* the wrapper object [Object(prim)] of a primitive *)
| VFun (name : string).                  (* a built-in function object *)

(** The strings the [typeof] operator returns. *)
Inductive type_name :=
| t_undefined | t_boolean | t_number | t_string | t_object | t_function.

Definition typeof (v : value) : type_name :=
  match v with
  | VUndefined => t_undefined
  | VNull => t_object
  | VBool _ => t_boolean
  | VNum _ => t_number
  | VStr _ => t_string
  | VArr _ | VObj _ | VBoxed _ => t_object
  | VFun _ => t_function
  end.

Definition type_name_eqb (a b : type_name) : bool :=
  match a, b with
  | t_undefined, t_undefined | t_boolean, t_boolean | t_number, t_number
  | t_string, t_string | t_object, t_object | t_function, t_function => true
  | _, _ => false
  end.

Definition Array_isArray (v : value) : bool :=
  match v with VArr _ => true | _ => false end.

(** [Boolean(v)]: ToBoolean. *)
Definition Boolean (v : value) : bool :=
  match v with
  | VUndefined | VNull => false
  | VBool b => b
  | VNum NaN | VNum (Zero _) => false
  | VNum _ => true
  | VStr s => negb (String.eqb s "")
  | VArr _ | VObj _ | VBoxed _ | VFun _ => true
  end.

Fixpoint join (sep : string) (l : list string) : string :=
  match l with
  | [] => ""
  | [s] => s
  | s :: l' => s +:+ sep +:+ join sep l'
  end.

(** [String(v)], template literals and [v + '']: ToString (objects go
    through their [toString]/[valueOf]). *)
Fixpoint ToString (v : value) : string :=
  match v with
  | VUndefined => "undefined"
  | VNull => "null"
  | VBool b => if b then "true" else "false"
  | VNum x => Number_toString x
  | VStr s => s
  | VArr l =>
      (* Array.prototype.join: undefined and null elements print as empty *)
      join "," (map (fun e => match e with
                              | VUndefined | VNull => ""
                              | _ => ToString e
                              end) l)
  | VObj _ => "[object Object]"
  | VBoxed p => ToString p
  | VFun name => "function " +:+ name +:+ "() { [native code] }"
  end.

(** [Number(v)]: ToNumber. *)
Fixpoint Number (v : value) : number :=
  match v with
  | VUndefined => NaN
  | VNull => Zero false
  | VBool b => number_of_bool b
  | VNum x => x
  | VStr s => StringToNumber s
  | VBoxed p => Number p
  | VArr _ | VObj _ | VFun _ => StringToNumber (ToString v)
  end.

(** [Object(v)]: ToObject, with a fresh empty object for undefined and null. *)
Definition Object (v : value) : value :=
  match v with
  | VUndefined | VNull => VObj []
  | VBool _ | VNum _ | VStr _ => VBoxed v
  | VArr _ | VObj _ | VBoxed _ | VFun _ => v
  end.

(** [String.prototype.split(',')]. *)
Fixpoint split_chars (l : list ascii) (cur : list ascii) : list string :=
  match l with
  | [] => [of_chars (rev cur)]
  | c :: l' =>
      if is_char c "," then of_chars (rev cur) :: split_chars l' []
      else split_chars l' (c :: cur)
  end.

Definition split_comma (s : string) : list string := split_chars (chars s) [].

(** ** lodash [toString] *)

Definition is_neg_zero (x : number) : bool :=
  match x with Zero true => true | _ => false end.

(** lodash's [baseToString]: strings as they are, arrays element by element,
    anything else through [value + ''], keeping the sign of [-0]. *)
Fixpoint baseToString (v : value) : string :=
  match v with
  | VStr s => s
  | VArr l => join "," (map baseToString l)
  | _ =>
      let result := ToString v in
      if String.eqb result "0" && is_neg_zero (Number v) then "-0" else result
  end.

Definition toStr (v : value) : string :=
  match v with
  | VUndefined | VNull => ""
  | _ => baseToString v
  end.

(** ** Property lookup on a plain object

    An object literal inherits from [Object.prototype]: the [in] operator
    and a property read both see the inherited names. *)

Definition Object_prototype_methods : list string :=
  [ "constructor"; "hasOwnProperty"; "isPrototypeOf"; "propertyIsEnumerable";
    "toLocaleString"; "toString"; "valueOf";
    "__defineGetter__"; "__defineSetter__"; "__lookupGetter__"; "__lookupSetter__" ].

Definition inherited (key : string) : option value :=
  if existsb (String.eqb key) Object_prototype_methods then Some (VFun key)
  else if String.eqb key "__proto__" then Some (VObj [])   (* Object.prototype itself *)
  else None.

Abbreviation object := (gmap string value).

(** [o[key]] *)
Definition get (o : object) (key : string) : value :=
  match o !! key with
  | Some v => v
  | None => default VUndefined (inherited key)
  end.

(** [key in o] *)
Definition has (key : string) (o : object) : bool :=
  bool_decide (is_Some (o !! key)) || bool_decide (is_Some (inherited key)).

(** ** destr

    The npm package the module imports to read array elements back, as
    published (destr 1.x): keywords are recognised whatever their case, text
    that does not look like JSON is returned as it is, and anything else is
    handed to [JSON.parse], whose failure also gives the text back.
    [JSON.parse] itself is a parameter: [None] stands for a SyntaxError. *)

Section Destr.

Variable JSON_parse : string -> option value.

(** [JsonSigRx.test(val)]: the text starts with a double quote, a brace or a
    bracket, or it is an optional minus sign, a digit and at most fourteen
    digits or dots. *)
Definition JsonSigRx_test (val : string) : bool :=
  match chars val with
  | [] => false
  | c :: r =>
      is_char c quote || is_char c "{" || is_char c "[" ||
      match (if is_char c "-" then r else c :: r) with
      | d :: rest =>
          is_digit d
          && forallb (fun x => is_digit x || is_char x ".") rest
          && (length rest <=? 14)%nat
      | [] => false
      end
  end.

Definition destr (val : string) : value :=
  let _lval := toLowerCase val in
  if String.eqb _lval "true" then VBool true
  else if String.eqb _lval "false" then VBool false
  else if String.eqb _lval "null" then VNull
  else if String.eqb _lval "nan" then VNum NaN
  else if String.eqb _lval "infinity" then VNum (Infinity false)
  else if String.eqb _lval "undefined" then VUndefined
  else if negb (JsonSigRx_test val) then VStr val
  else match JSON_parse val with
       | Some v => v
       | None => VStr val
       end.

End Destr.

End Js.

(* ===================================================================== *)
(** * The store module *)
(* ===================================================================== *)

Module Store.
Import Js.

(** ** The tracker state and its mutations *)

Record DisplayPreferencesApiState := {
  syncing : bool;
  LastSync : Z;
  LastSettingChange : Z
}.

Definition defaultState : DisplayPreferencesApiState :=
  {| syncing := false; LastSync := -1; LastSettingChange := -1 |}.

(** What [Object.assign(state, source)] copies into the tracker state: the
    own enumerable properties of [source].  A state object has its three
    fields; a function object has none. *)
Inductive assign_source :=
| from_state (s : DisplayPreferencesApiState)
| from_function (name : string).

Inductive field_write :=
| write_syncing (b : bool)
| write_LastSync (t : Z)
| write_LastSettingChange (t : Z).

Definition own_enumerable (src : assign_source) : list field_write :=
  match src with
  | from_state s =>
      [write_syncing (syncing s); write_LastSync (LastSync s);
       write_LastSettingChange (LastSettingChange s)]
  | from_function _ => []
  end.

Definition write_field (state : DisplayPreferencesApiState) (f : field_write) :=
  match f with
  | write_syncing b =>
      {| syncing := b; LastSync := LastSync state;
         LastSettingChange := LastSettingChange state |}
  | write_LastSync t =>
      {| syncing := syncing state; LastSync := t;
         LastSettingChange := LastSettingChange state |}
  | write_LastSettingChange t =>
      {| syncing := syncing state; LastSync := LastSync state;
         LastSettingChange := t |}
  end.

Definition Object_assign (state : DisplayPreferencesApiState) (src : assign_source) :=
  fold_left write_field (own_enumerable src) state.

(** A mutation receives the reading of [Date.now()] and the state. *)
Definition Mutation : Type := Z -> DisplayPreferencesApiState -> DisplayPreferencesApiState.

(** [Object.assign(state, defaultState)]: the source is the arrow function
    [defaultState] itself, not the object [defaultState()] it returns. *)
Definition RESET_STATE : Mutation :=
  fun _ state => Object_assign state (from_function "defaultState").

Definition SYNCING_STARTED : Mutation :=
  fun _ state => write_field state (write_syncing true).

Definition SYNCING_ENDED : Mutation :=
  fun Date_now state =>
    write_field (write_field state (write_syncing false)) (write_LastSync Date_now).

Definition UPDATE_CLIENT_SETTINGS : Mutation :=
  fun Date_now state => write_field state (write_LastSettingChange Date_now).

(** ** The world the actions run in *)

(** A display-preferences document: its custom preferences ([None] when the
    property is null or missing) and its other properties. *)
Record DisplayPreferencesDto := {
  CustomPrefs : option object;
  OtherProps : object
}.

Record SnackbarMessage := { message : string; color : string }.

Inductive Request :=
| GetDisplayPreferences
| UpdateDisplayPreferences (displayPreferencesDto : DisplayPreferencesDto).

Abbreviation loc := positive.

Record World := {
  state : DisplayPreferencesApiState;        (* this module's state *)
  settings : object;                         (* rootState.settings, the client settings store *)
  heap : gmap loc DisplayPreferencesDto;     (* documents received from the server *)
  now : Z;                                   (* what Date.now() reads *)
  snackbar : list SnackbarMessage;           (* snackbar/pushSnackbarMessage dispatches *)
  committed : list object;                   (* payloads committed to settings/INIT_STATE *)
  requests : list Request                    (* calls made to the server *)
}.

Definition with_state (f : DisplayPreferencesApiState -> DisplayPreferencesApiState)
    (w : World) : World :=
  {| state := f (state w); settings := settings w; heap := heap w; now := now w;
     snackbar := snackbar w; committed := committed w; requests := requests w |}.

Definition with_settings (f : object -> object) (w : World) : World :=
  {| state := state w; settings := f (settings w); heap := heap w; now := now w;
     snackbar := snackbar w; committed := committed w; requests := requests w |}.

Definition with_heap (f : gmap loc DisplayPreferencesDto -> gmap loc DisplayPreferencesDto)
    (w : World) : World :=
  {| state := state w; settings := settings w; heap := f (heap w); now := now w;
     snackbar := snackbar w; committed := committed w; requests := requests w |}.

Definition with_now (f : Z -> Z) (w : World) : World :=
  {| state := state w; settings := settings w; heap := heap w; now := f (now w);
     snackbar := snackbar w; committed := committed w; requests := requests w |}.

Definition with_snackbar (f : list SnackbarMessage -> list SnackbarMessage)
    (w : World) : World :=
  {| state := state w; settings := settings w; heap := heap w; now := now w;
     snackbar := f (snackbar w); committed := committed w; requests := requests w |}.

Definition with_committed (f : list object -> list object) (w : World) : World :=
  {| state := state w; settings := settings w; heap := heap w; now := now w;
     snackbar := snackbar w; committed := f (committed w); requests := requests w |}.

Definition with_requests (f : list Request -> list Request) (w : World) : World :=
  {| state := state w; settings := settings w; heap := heap w; now := now w;
     snackbar := snackbar w; committed := committed w; requests := f (requests w) |}.

(** ** State and exceptions *)

Inductive Exn :=
| TypeError
| Error (message : string).

Inductive Result (A : Type) :=
| Ok (a : A)
| Throw (e : Exn).
Arguments Ok {A} a.
Arguments Throw {A} e.

Definition M (A : Type) : Type := World -> Result A * World.

Definition ret {A} (a : A) : M A := fun w => (Ok a, w).

Definition bind {A B} (m : M A) (k : A -> M B) : M B :=
  fun w =>
    match m w with
    | (Ok a, w') => k a w'
    | (Throw e, w') => (Throw e, w')
    end.

Definition throw {A} (e : Exn) : M A := fun w => (Throw e, w).

(** [try { body } catch (error) { handler }] *)
Definition try_catch {A} (body : M A) (handler : Exn -> M A) : M A :=
  fun w =>
    match body w with
    | (Throw e, w') => handler e w'
    | r => r
    end.

Declare Scope js_scope.
Delimit Scope js_scope with js.
Notation "x <- m ;; k" := (bind m (fun x => k))
  (at level 100, m at next level, right associativity) : js_scope.
Notation "m ;; k" := (bind m (fun _ => k))
  (at level 100, right associativity) : js_scope.
Local Open Scope js_scope.

(** [for (const x of l) { body }] *)
Fixpoint for_of {A} (l : list A) (body : A -> M unit) : M unit :=
  match l with
  | [] => ret tt
  | x :: l' => body x ;; for_of l' body
  end.

Definition modify (f : World -> World) : M unit := fun w => (Ok tt, f w).
Definition read {A} (f : World -> A) : M A := fun w => (Ok (f w), w).

(** [commit(mutation)] on this module's state. *)
Definition commit (mutation : Mutation) : M unit :=
  fun w => (Ok tt, with_state (mutation (now w)) w).

(** Modelled from the spec: the settings store's INIT_STATE mutation, which
    lives in store/settings; it merges the payload into the store, setting
    only the fields present in the payload. *)
Definition settings_INIT_STATE (data : object) (settings : object) : object :=
  data ∪ settings.

Definition commit_settings_INIT_STATE (data : object) : M unit :=
  modify (fun w => with_committed (fun l => l ++ [data])
                     (with_settings (settings_INIT_STATE data) w)).

Definition dispatch_pushSnackbarMessage (msg : SnackbarMessage) : M unit :=
  modify (with_snackbar (fun l => l ++ [msg])).

(** [this.$i18n.t(key)]: the localized text is named by its key. *)
Definition i18n_t (key : string) : string := key.

(** ** The server *)

(** What one call to the server comes to: the promise rejects, or it
    resolves with a status and a body; either takes some time. *)
Inductive Reply (A : Type) :=
| Rejected (latency : N)
| Resolved (latency : N) (status : Z) (data : A).
Arguments Rejected {A} latency.
Arguments Resolved {A} latency status data.

(** What surrounds one run of an action: the authentication context and the
    server's replies. *)
Record Env := {
  loggedIn : bool;
  getReply : Reply DisplayPreferencesDto;
  updateReply : Reply unit
}.

(** [response.data]: the body of a reply is a new object. *)
Definition alloc (d : DisplayPreferencesDto) : M loc :=
  fun w =>
    let l := fresh (dom (heap w)) in
    (Ok l, with_heap (insert l d) w).

(** [await] of a call to the server. *)
Definition await {A} (r : Reply A) : M (Z * A) :=
  match r with
  | Rejected latency =>
      modify (with_now (fun t => t + Z.of_N latency)) ;; throw (Error "Network Error")
  | Resolved latency status data =>
      modify (with_now (fun t => t + Z.of_N latency)) ;; ret (status, data)
  end.

Definition api_getDisplayPreferences (env : Env) : M (Z * loc) :=
  modify (with_requests (fun l => l ++ [GetDisplayPreferences])) ;;
  r <- await (getReply env) ;;
  data <- alloc (snd r) ;;
  ret (fst r, data).

(** Reading a property of a document; a missing document is as [undefined]. *)
Definition deref (data : loc) : M DisplayPreferencesDto :=
  fun w =>
    match heap w !! data with
    | Some d => (Ok d, w)
    | None => (Throw TypeError, w)
    end.

Definition api_updateDisplayPreferences (env : Env) (displayPreferencesDto : loc) : M Z :=
  d <- deref displayPreferencesDto ;;
  modify (with_requests (fun l => l ++ [UpdateDisplayPreferences d])) ;;
  r <- await (updateReply env) ;;
  ret (fst r).

(** [data.CustomPrefs = o] *)
Definition set_CustomPrefs (data : loc) (o : option object) : M unit :=
  d <- deref data ;;
  modify (with_heap (insert data {| CustomPrefs := o; OtherProps := OtherProps d |})).

(** [data.CustomPrefs?.[key] = v]: nothing is written when the property is
    null or undefined. *)
Definition CustomPrefs_assign (data : loc) (key : string) (v : value) : M unit :=
  d <- deref data ;;
  match CustomPrefs d with
  | Some o => set_CustomPrefs data (Some (<[key := v]> o))
  | None => ret tt
  end.

(** [delete data.CustomPrefs[key]] *)
Definition CustomPrefs_delete (data : loc) (key : string) : M unit :=
  d <- deref data ;;
  match CustomPrefs d with
  | Some o => set_CustomPrefs data (Some (delete key o))
  | None => throw TypeError
  end.

(** [Object.entries(data.CustomPrefs)]: a TypeError on null or undefined. *)
Definition CustomPrefs_entries (data : loc) : M (list (string * value)) :=
  d <- deref data ;;
  match CustomPrefs d with
  | Some o => ret (map_to_list o)
  | None => throw TypeError
  end.

(** ** castResponse and the actions *)

Section Actions.

(** [JSON.parse], as [destr] uses it. *)
Variable JSON_parse : string -> option value.

(** The object [settingState()] returns: the default state of the client
    settings store (store/settings), whose values tell the type each custom
    preference is cast to. *)
Variable settingState : object.

(** The value the loop of [castResponse] writes for one entry, or [None]
    where no branch applies and the entry is left as it is. *)
Definition cast (key : string) (value : value) : option Js.value :=
  let stateValue := get settingState key in
  if type_name_eqb (typeof stateValue) t_boolean then
    Some (VBool (Boolean value))
  else if type_name_eqb (typeof stateValue) t_number then
    Some (VNum (Number value))
  else if type_name_eqb (typeof stateValue) t_object then
    if Array_isArray stateValue then
      Some (VArr (map (destr JSON_parse) (split_comma (ToString value))))
    else match stateValue with
         | VNull => Some VNull
         | VUndefined => Some VUndefined
         | _ => Some (Object value)
         end
  else None.

Definition castResponse (data : loc) : M loc :=
  let result := data in
  entries <- CustomPrefs_entries result ;;
  for_of entries (fun '(key, value) =>
    match cast key value with
    | Some v => CustomPrefs_assign result key v
    | None => ret tt
    end) ;;
  ret result.

Definition status_error (what : string) (status : Z) : Exn :=
  Error (what +:+ " display preferences status response = " +:+ pretty status).

(** The [try] block of [initState]. *)
Definition initState_try (env : Env) : M unit :=
  response <- api_getDisplayPreferences env ;;
  (if negb (fst response =? 200) then throw (status_error "get" (fst response))
   else ret tt) ;;
  data <- castResponse (snd response) ;;
  d <- deref data ;;
  match CustomPrefs d with
  | Some o =>
      (* keys the default settings state does not define are deleted *)
      for_of (map_to_list o).*1 (fun key =>
        if negb (has key settingState) then CustomPrefs_delete data key
        else ret tt) ;;
      d' <- deref data ;;
      commit_settings_INIT_STATE (default ∅ (CustomPrefs d'))
  | None => ret tt
  end.

Definition initState (env : Env) : M unit :=
  if loggedIn env then
    commit SYNCING_STARTED ;;
    try_catch (initState_try env)
      (fun error =>
         let message := i18n_t "failedRetrievingDisplayPreferences" in
         dispatch_pushSnackbarMessage {| message := message; color := "error" |}) ;;
    commit SYNCING_ENDED
  else ret tt.

(** How [pushState] renders one setting. *)
Definition encode (value : value) : string :=
  if Array_isArray value then "[" +:+ toStr value +:+ "]"
  else toStr value.

(** The part of [pushState] that fills the document: the settings are
    copied into [displayPrefs.CustomPrefs] ([Object.assign]) and every entry
    is then replaced by its string. *)
Definition fillCustomPrefs (displayPrefs : loc) : M unit :=
  snapshot <- read settings ;;
  for_of (map_to_list snapshot) (fun '(key, value) =>
    CustomPrefs_assign displayPrefs key value) ;;
  entries <- CustomPrefs_entries displayPrefs ;;
  for_of entries (fun '(key, value) =>
    CustomPrefs_assign displayPrefs key (VStr (encode value))).

(** The part of [pushState] that sends the document. *)
Definition sendCustomPrefs (env : Env) (displayPrefs : loc) : M unit :=
  response <- api_updateDisplayPreferences env displayPrefs ;;
  if negb (response =? 204) then throw (status_error "set" response)
  else ret tt.

(** The [try] block of [pushState]. *)
Definition pushState_try (env : Env) : M unit :=
  responseFetch <- api_getDisplayPreferences env ;;
  (if negb (fst responseFetch =? 200)
   then throw (status_error "get" (fst responseFetch))
   else ret tt) ;;
  let displayPrefs := snd responseFetch in
  set_CustomPrefs displayPrefs (Some ∅) ;;
  (* const settings = rootState.settings: the store object itself *)
  status <- read (fun w => get (settings w) "status") ;;
  (if Boolean status then modify (with_settings (delete "status"))
   else ret tt) ;;
  fillCustomPrefs displayPrefs ;;
  sendCustomPrefs env displayPrefs.

Definition pushState (env : Env) : M unit :=
  if loggedIn env then
    commit SYNCING_STARTED ;;
    try_catch (pushState_try env)
      (fun error =>
         let message := i18n_t "failedSettingDisplayPreferences" in
         dispatch_pushSnackbarMessage {| message := message; color := "error" |}) ;;
    commit SYNCING_ENDED
  else ret tt.

Definition updateSettings (env : Env) : M unit :=
  commit UPDATE_CLIENT_SETTINGS ;;
  pushState env.

Definition resetState : M unit :=
  commit RESET_STATE.

End Actions.

End Store.

(* ===================================================================== *)
(** * The vocabulary of the properties *)
(* ===================================================================== *)

Module Spec.
Import Js Store.
Local Open Scope js_scope.

(** ** Loops over an object, as folds *)

(** One round of a loop that assigns [f key value] to [o[key]]. *)
Definition assign_step (f : string -> value -> option value)
    (o : object) (e : string * value) : object :=
  match f e.1 e.2 with
  | Some v => <[e.1 := v]> o
  | None => o
  end.

(** One round of a loop that deletes the keys [keep] rejects. *)
Definition delete_step (keep : string -> bool) (o : object) (key : string) : object :=
  if negb (keep key) then delete key o else o.

(** The object a loop over [Object.entries(o)] leaves behind when it assigns
    [f key value] for every entry. *)
Definition assign_all (f : string -> value -> option value) (o : object) : object :=
  foldl (assign_step f) o (map_to_list o).

(** The object the loop over [Object.keys(o)] leaves behind when it deletes
    the keys that [keep] rejects. *)
Definition delete_all (keep : string -> bool) (o : object) : object :=
  foldl (delete_step keep) o (map_to_list o).*1.

(** The world in which the document at [data] holds the custom preferences
    [o]. *)
Definition put (data : loc) (w : World) (d : DisplayPreferencesDto) (o : object) : World :=
  with_heap (insert data {| CustomPrefs := Some o; OtherProps := OtherProps d |}) w.

(** The custom preferences [castResponse] leaves in the document. *)
Definition castPrefs (JSON_parse : string -> option value) (settingState : object)
    (o : object) : object :=
  assign_all (cast JSON_parse settingState) o.

(** The payload [initState] commits to the settings store: the custom
    preferences cast, then without the keys that the [in] test on the
    default settings state rejects. *)
Definition pulled (JSON_parse : string -> option value) (settingState : object)
    (o : object) : object :=
  delete_all (fun key => has key settingState) (castPrefs JSON_parse settingState o).

(** The document a fetch brings back, when it resolves with status 200. *)
Definition fetched (env : Env) : option DisplayPreferencesDto :=
  match getReply env with
  | Resolved _ status body => if status =? 200 then Some body else None
  | Rejected _ => None
  end.

(** The payload of the run of [initState] in the environment [env], if it
    commits one. *)
Definition pull_payload (JSON_parse : string -> option value) (settingState : object)
    (env : Env) : option object :=
  if loggedIn env then
    body ← fetched env; pulled JSON_parse settingState <$> CustomPrefs body
  else None.

(** The custom preferences [pushState] sends for the settings [store]. *)
Definition encodePrefs (store : object) : object :=
  (fun v => VStr (encode v)) <$> store.

(** The settings store after the [status] check of [pushState]. *)
Definition strip_status (store : object) : object :=
  if Boolean (get store "status") then delete "status" store else store.

(** The settings store after a run of [pushState]. *)
Definition push_settings (env : Env) (store : object) : object :=
  if loggedIn env then
    match fetched env with
    | Some _ => strip_status store
    | None => store
    end
  else store.

(** The requests a run of [pushState] adds to the log. *)
Definition push_requests (env : Env) (store : object) : list Request :=
  if loggedIn env then
    GetDisplayPreferences ::
    match fetched env with
    | Some body =>
        [UpdateDisplayPreferences
           {| CustomPrefs := Some (encodePrefs (strip_status store));
              OtherProps := OtherProps body |}]
    | None => []
    end
  else [].

(** ** What a run leaves alone

    [respects R m]: every run of [m] takes a world to one related to it by
    [R].  For a preorder [R] that the heap, the clock and the logs do not
    affect, the property follows the structure of the code; only the commits
    and the writes to the settings store are left to each relation. *)

Definition respects {A} (R : relation World) (m : M A) : Prop :=
  forall w, R w (m w).2.

Definition advance (latency : N) : World -> World :=
  with_now (fun t => t + Z.of_N latency).

Class Frame (R : relation World) : Prop := {
  frame_preorder :: PreOrder R;
  frame_heap f w : R w (with_heap f w);
  frame_requests f w : R w (with_requests f w);
  frame_snackbar f w : R w (with_snackbar f w);
  frame_advance n w : R w (advance n w)
}.

Definition same_LastSettingChange : relation World :=
  fun w w' => LastSettingChange (state w') = LastSettingChange (state w).

Definition same_settings : relation World :=
  fun w w' => settings w' = settings w.

(** The settings store is as it was, or it has lost a truthy [status]. *)
Definition status_dropped : relation World :=
  fun w w' =>
    settings w' = settings w
    \/ (Boolean (get (settings w) "status") = true
        /\ settings w' = delete "status" (settings w)).

(** No timestamp of the tracker is ahead of the clock. *)
Definition stamps_in_past (w : World) : Prop :=
  LastSync (state w) <= now w /\ LastSettingChange (state w) <= now w.

(** The clock has not gone back, and the timestamps have not overtaken it. *)
Definition clock_on : relation World :=
  fun w w' => now w <= now w' /\ (stamps_in_past w -> stamps_in_past w').

(** The shape shared by [initState] and [pushState] once authenticated:
    [commit SYNCING_STARTED; try { body } catch { snackbar }; commit SYNCING_ENDED]. *)
Definition sync_block (body : M unit) (msg : SnackbarMessage) : M unit :=
  commit SYNCING_STARTED ;;
  try_catch body (fun _ => dispatch_pushSnackbarMessage msg) ;;
  commit SYNCING_ENDED.

(** ** Concrete worlds and servers *)

(** A [JSON.parse] that rejects its input, for runs whose texts are not
    JSON. *)
Definition JSON_rejects : string -> option value := fun _ => None.

Definition one : number := number_of_N 1.

(** A default settings state with a boolean, a number and an array. *)
Definition schema : object :=
  {[ "darkMode" := VBool false; "volume" := VNum one; "tags" := VArr [] ]}.

Definition world (st : DisplayPreferencesApiState) (store : object) : World :=
  {| state := st; settings := store; heap := ∅; now := 1000;
     snackbar := []; committed := []; requests := [] |}.

Definition document (prefs : object) : DisplayPreferencesDto :=
  {| CustomPrefs := Some prefs; OtherProps := {[ "Client" := VStr "vue" ]} |}.

(** The server answers the fetch with [prefs] and accepts the update. *)
Definition server (prefs : object) : Env :=
  {| loggedIn := true;
     getReply := Resolved 5 200 (document prefs);
     updateReply := Resolved 5 204 tt |}.

(** The server is down: the fetch comes back with status 500. *)
Definition server_down : Env :=
  {| loggedIn := true;
     getReply := Resolved 5 500 (document ∅);
     updateReply := Resolved 5 204 tt |}.

Definition logged_out : Env :=
  {| loggedIn := false;
     getReply := Resolved 5 200 (document ∅);
     updateReply := Resolved 5 204 tt |}.

(** A tracker in the middle of a sync. *)
Definition busy : DisplayPreferencesApiState :=
  {| syncing := true; LastSync := 5; LastSettingChange := 7 |}.

(** A tracker whose last setting change is stamped later than the clock of
    [world] reads: the stamp was written before the clock was set back. *)
Definition ahead : DisplayPreferencesApiState :=
  {| syncing := false; LastSync := 5; LastSettingChange := 5000 |}.

(** A heap holding one document received from the server. *)
Definition received (prefs : object) : World :=
  with_heap (insert 1%positive (document prefs)) (world defaultState ∅).

(** The custom preferences of the documents a run sent to the server. *)
Definition sent (w : World) : list (option (list (string * value))) :=
  omap (fun r => match r with
                 | GetDisplayPreferences => None
                 | UpdateDisplayPreferences d => Some (map_to_list <$> CustomPrefs d)
                 end) (requests w).

(** ** Numbers and their decimal strings *)

(** A Number in the form [mk_number] builds: the digits of a finite
    non-zero Number are decimal digits, the first and the last not zero. *)
Definition number_ok (x : number) : bool :=
  match x with
  | Finite _ ds _ =>
      forallb is_digit ds
      && match ds with c :: _ => negb (is_zero_char c) | [] => false end
      && match rev ds with c :: _ => negb (is_zero_char c) | [] => false end
  | _ => true
  end.

(** The value of a decimal numeral read after the digits worth [acc]. *)
Fixpoint uint_value (u : Decimal.uint) (acc : N) : N :=
  match u with
  | Decimal.Nil => acc
  | Decimal.D0 l => uint_value l (acc * 10)
  | Decimal.D1 l => uint_value l (acc * 10 + 1)
  | Decimal.D2 l => uint_value l (acc * 10 + 2)
  | Decimal.D3 l => uint_value l (acc * 10 + 3)
  | Decimal.D4 l => uint_value l (acc * 10 + 4)
  | Decimal.D5 l => uint_value l (acc * 10 + 5)
  | Decimal.D6 l => uint_value l (acc * 10 + 6)
  | Decimal.D7 l => uint_value l (acc * 10 + 7)
  | Decimal.D8 l => uint_value l (acc * 10 + 8)
  | Decimal.D9 l => uint_value l (acc * 10 + 9)
  end%N.

(** Text at which a run of digits and a fraction both end. *)
Definition stops_digits (ex : list ascii) : Prop :=
  match ex with
  | c :: _ => is_digit c = false /\ is_char c "." = false
  | [] => True
  end.

(** The exponent part [Number::toString] prints. *)
Definition exponent (E : Z) : list ascii :=
  "e"%char :: (if E <? 0 then "-"%char else "+"%char) :: string_of_Z_abs E.

(** The commas of a text: [split(',')] cuts at each of them. *)
Definition count_commas (s : string) : nat :=
  length (filter (fun c => is_char c "," = true) (chars s)).

(** ** Outcomes *)

Definition returned {A} (r : Result A) : bool :=
  match r with Ok _ => true | Throw _ => false end.

(** The [try] block of [initState] completes: a document was fetched with
    status 200 and it has custom preferences. *)
Definition pull_succeeds (env : Env) : bool :=
  match fetched env with
  | Some body => bool_decide (is_Some (CustomPrefs body))
  | None => false
  end.

(** The update resolves with status 204. *)
Definition update_accepted (env : Env) : bool :=
  match updateReply env with
  | Resolved _ status _ => status =? 204
  | Rejected _ => false
  end.

(** The [try] block of [pushState] completes. *)
Definition push_succeeds (env : Env) : bool :=
  bool_decide (is_Some (fetched env)) && update_accepted env.

Definition retrieving_failed : SnackbarMessage :=
  {| message := "failedRetrievingDisplayPreferences"; color := "error" |}.

Definition setting_failed : SnackbarMessage :=
  {| message := "failedSettingDisplayPreferences"; color := "error" |}.

Definition same_committed : relation World :=
  fun w w' => committed w' = committed w.

(** The server rejects the update with status 500. *)
Definition server_refuses : Env :=
  {| loggedIn := true;
     getReply := Resolved 5 200 (document ∅);
     updateReply := Resolved 5 500 tt |}.

(** A default settings state with a string. *)
Definition schema_locale : object := {[ "locale" := VStr "auto" ]}.

(** The Number -1.5e-7. *)
Definition tiny : number := Finite true ["1"%char; "5"%char] (-6).

(** A document whose custom preferences are null. *)
Definition bare_document : DisplayPreferencesDto :=
  {| CustomPrefs := None; OtherProps := ∅ |}.

End Spec.

(* ===================================================================== *)
(** * Properties *)
(* ===================================================================== *)

Module Props.
Import Js Store Spec.
Local Open Scope js_scope.

(** ** Running monadic code *)

Lemma World_eta (w : World) :
  {| state := state w; settings := settings w; heap := heap w; now := now w;
     snackbar := snackbar w; committed := committed w; requests := requests w |} = w.
Proof. by destruct w. Qed.

Lemma with_heap_insert_id (w : World) (l : loc) (d : DisplayPreferencesDto) :
  heap w !! l = Some d -> with_heap (insert l d) w = w.
Proof.
  intros H. unfold with_heap. rewrite (insert_id _ _ _ H). apply World_eta.
Qed.

Lemma with_heap_insert_insert (w : World) (l : loc) (d1 d2 : DisplayPreferencesDto) :
  with_heap (insert l d2) (with_heap (insert l d1) w) = with_heap (insert l d2) w.
Proof. unfold with_heap; cbn. by rewrite insert_insert_eq. Qed.

Lemma bind_ok {A B} (m : M A) (k : A -> M B) (w w' : World) (a : A) :
  m w = (Ok a, w') -> bind m k w = k a w'.
Proof. unfold bind. by intros ->. Qed.

Lemma bind_throw {A B} (m : M A) (k : A -> M B) (w w' : World) (e : Exn) :
  m w = (Throw e, w') -> bind m k w = (Throw e, w').
Proof. unfold bind. by intros ->. Qed.

Lemma deref_ok (data : loc) (w : World) (d : DisplayPreferencesDto) :
  heap w !! data = Some d -> deref data w = (Ok d, w).
Proof. unfold deref. by intros ->. Qed.

Lemma set_CustomPrefs_ok (data : loc) (w : World) (d : DisplayPreferencesDto) o :
  heap w !! data = Some d ->
  set_CustomPrefs data o w =
    (Ok tt, with_heap (insert data {| CustomPrefs := o; OtherProps := OtherProps d |}) w).
Proof. intros H. unfold set_CustomPrefs. by rewrite (bind_ok _ _ _ _ _ (deref_ok _ _ _ H)). Qed.

(** ** The loops over a document's custom preferences

    A loop that assigns to [data.CustomPrefs[key]] for each entry of a list
    comes to a left fold over the object stored in the heap. *)

Section Loops.

Variable data : loc.

Lemma put_same (w : World) (d : DisplayPreferencesDto) (o : object) :
  heap w !! data = Some d -> CustomPrefs d = Some o -> put data w d o = w.
Proof.
  intros Hd Ho. apply with_heap_insert_id. rewrite Hd. f_equal.
  destruct d; cbn in *; by subst.
Qed.

Lemma for_of_assign (f : string -> value -> option value) (es : list (string * value)) :
  forall (w : World) (d : DisplayPreferencesDto) (o : object),
    heap w !! data = Some d -> CustomPrefs d = Some o ->
    for_of es (fun '(key, value) =>
                 match f key value with
                 | Some v => CustomPrefs_assign data key v
                 | None => ret tt
                 end) w
    = (Ok tt, put data w d (foldl (assign_step f) o es)).
Proof.
  induction es as [|[k v] es IH]; intros w d o Hd Ho; cbn [for_of foldl].
  - unfold ret. by rewrite put_same.
  - unfold assign_step at 2; cbn [fst snd].
    destruct (f k v) as [v'|] eqn:Hf.
    + set (d1 := {| CustomPrefs := Some (<[k:=v']> o); OtherProps := OtherProps d |}).
      assert (Hstep : CustomPrefs_assign data k v' w = (Ok tt, with_heap (insert data d1) w)).
      { unfold CustomPrefs_assign. rewrite (bind_ok _ _ _ _ _ (deref_ok _ _ _ Hd)), Ho.
        by apply set_CustomPrefs_ok. }
      rewrite (bind_ok _ _ _ _ _ Hstep).
      rewrite (IH _ d1 (<[k:=v']> o)); [|by cbn; rewrite lookup_insert_eq|done].
      unfold put. by rewrite with_heap_insert_insert.
    + unfold bind, ret. by apply IH.
Qed.

Lemma for_of_delete (keep : string -> bool) (keys : list string) :
  forall (w : World) (d : DisplayPreferencesDto) (o : object),
    heap w !! data = Some d -> CustomPrefs d = Some o ->
    for_of keys (fun key =>
                   if negb (keep key) then CustomPrefs_delete data key else ret tt) w
    = (Ok tt, put data w d (foldl (delete_step keep) o keys)).
Proof.
  induction keys as [|k keys IH]; intros w d o Hd Ho; cbn [for_of foldl].
  - unfold ret. by rewrite put_same.
  - unfold delete_step at 2.
    destruct (negb (keep k)) eqn:Hk.
    + set (d1 := {| CustomPrefs := Some (delete k o); OtherProps := OtherProps d |}).
      assert (Hstep : CustomPrefs_delete data k w = (Ok tt, with_heap (insert data d1) w)).
      { unfold CustomPrefs_delete. rewrite (bind_ok _ _ _ _ _ (deref_ok _ _ _ Hd)), Ho.
        by apply set_CustomPrefs_ok. }
      rewrite (bind_ok _ _ _ _ _ Hstep).
      rewrite (IH _ d1 (delete k o)); [|by cbn; rewrite lookup_insert_eq|done].
      unfold put. by rewrite with_heap_insert_insert.
    + unfold bind, ret. by apply IH.
Qed.

End Loops.

(** ** The folds, key by key *)

Lemma foldl_assign_lookup (f : string -> value -> option value)
    (es : list (string * value)) (k : string) :
  NoDup es.*1 ->
  forall o : object,
    foldl (assign_step f) o es !! k =
      match (list_to_map es : object) !! k with
      | Some v => match f k v with Some v' => Some v' | None => o !! k end
      | None => o !! k
      end.
Proof.
  induction es as [|[k1 v1] es IH]; intros Hnd o; cbn [foldl]; [done|].
  apply NoDup_cons in Hnd as [Hk1 Hnd]. rewrite (IH Hnd). cbn [list_to_map foldr].
  unfold assign_step; cbn [fst snd].
  destruct (decide (k = k1)) as [->|Hne].
  - rewrite lookup_insert_eq, (not_elem_of_list_to_map_1 _ _ Hk1).
    destruct (f k1 v1); [by rewrite lookup_insert_eq|done].
  - rewrite (lookup_insert_ne _ k1 k) by done.
    destruct (f k1 v1); [|done].
    rewrite (lookup_insert_ne _ k1 k) by done. done.
Qed.

Lemma foldl_delete_lookup (keep : string -> bool) (keys : list string) (k : string) :
  forall o : object,
    foldl (delete_step keep) o keys !! k =
      if bool_decide (k ∈ keys) && negb (keep k) then None else o !! k.
Proof.
  induction keys as [|k1 keys IH]; intros o; cbn [foldl].
  - rewrite bool_decide_eq_false_2; [done|]. apply not_elem_of_nil.
  - rewrite IH. unfold delete_step.
    destruct (decide (k = k1)) as [->|Hne].
    + rewrite (bool_decide_eq_true_2 (k1 ∈ k1 :: keys)) by left.
      destruct (keep k1) eqn:Hkeep; cbn [negb andb].
      * by rewrite andb_false_r.
      * rewrite lookup_delete_eq. by destruct (bool_decide _).
    + assert (Heq : bool_decide (k ∈ k1 :: keys) = bool_decide (k ∈ keys)).
      { apply bool_decide_ext. rewrite elem_of_cons.
        split; [by intros [?|?]|by right]. }
      rewrite Heq. destruct (bool_decide _ && _); [done|].
      destruct (negb (keep k1)); [by rewrite lookup_delete_ne|done].
Qed.

Lemma lookup_assign_all (f : string -> value -> option value) (o : object) (k : string) :
  assign_all f o !! k = (fun v => default v (f k v)) <$> o !! k.
Proof.
  unfold assign_all. rewrite foldl_assign_lookup by apply NoDup_fst_map_to_list.
  rewrite list_to_map_to_list. destruct (o !! k) as [v|] eqn:Hk; cbn; [|done].
  by destruct (f k v).
Qed.

Lemma lookup_delete_all (keep : string -> bool) (o : object) (k : string) :
  delete_all keep o !! k = if keep k then o !! k else None.
Proof.
  unfold delete_all. rewrite foldl_delete_lookup.
  destruct (keep k); cbn [negb]; [by rewrite andb_false_r|].
  rewrite andb_true_r. case_bool_decide as Hin; [done|].
  destruct (o !! k) as [v|] eqn:Hk; [|done].
  exfalso. apply Hin, list_elem_of_fmap. exists (k, v). split; [done|].
  by apply elem_of_map_to_list.
Qed.

(** ** castResponse *)

Section Cast.

Variable JSON_parse : string -> option value.
Variable settingState : object.

Local Abbreviation cast := (cast JSON_parse settingState).
Local Abbreviation castResponse := (castResponse JSON_parse settingState).
Local Abbreviation castPrefs := (castPrefs JSON_parse settingState).

Lemma lookup_castPrefs (o : object) (k : string) :
  castPrefs o !! k = (fun v => default v (cast k v)) <$> o !! k.
Proof. apply lookup_assign_all. Qed.

Lemma castResponse_run (data : loc) (w : World) (d : DisplayPreferencesDto) (o : object) :
  heap w !! data = Some d -> CustomPrefs d = Some o ->
  castResponse data w = (Ok data, put data w d (castPrefs o)).
Proof.
  intros Hd Ho. unfold Store.castResponse.
  assert (Hentries : CustomPrefs_entries data w = (Ok (map_to_list o), w)).
  { unfold CustomPrefs_entries. by rewrite (bind_ok _ _ _ _ _ (deref_ok _ _ _ Hd)), Ho. }
  rewrite (bind_ok _ _ _ _ _ Hentries).
  by rewrite (bind_ok _ _ _ _ _ (for_of_assign data cast _ w d o Hd Ho)).
Qed.

Lemma castResponse_null (data : loc) (w : World) (d : DisplayPreferencesDto) :
  heap w !! data = Some d -> CustomPrefs d = None ->
  castResponse data w = (Throw TypeError, w).
Proof.
  intros Hd Ho. unfold Store.castResponse, CustomPrefs_entries.
  unfold bind at 1. unfold bind at 1. by rewrite (deref_ok _ _ _ Hd), Ho.
Qed.

End Cast.

(** ** What a run leaves alone: [respects], along the structure of the code *)

Section Respects.

Context (R : relation World) `{!Frame R}.

Lemma respects_ret {A} (a : A) : respects R (ret a).
Proof. intros w. reflexivity. Qed.

Lemma respects_throw {A} (e : Exn) : respects R (@throw A e).
Proof. intros w. reflexivity. Qed.

Lemma respects_bind_at {A B} (m : M A) (k : A -> M B) (w : World) :
  R w (m w).2 -> (forall a, respects R (k a)) -> R w (bind m k w).2.
Proof.
  intros Hm Hk. unfold bind.
  destruct (m w) as [[a|e] w']; cbn in *; [|done].
  etrans; [exact Hm|apply Hk].
Qed.

Lemma respects_bind {A B} (m : M A) (k : A -> M B) :
  respects R m -> (forall a, respects R (k a)) -> respects R (bind m k).
Proof. intros Hm Hk w. by apply respects_bind_at. Qed.

Lemma respects_try_catch {A} (body : M A) (handler : Exn -> M A) :
  respects R body -> (forall e, respects R (handler e)) ->
  respects R (try_catch body handler).
Proof.
  intros Hm Hh w. unfold try_catch. specialize (Hm w).
  destruct (body w) as [[a|e] w']; cbn in *; [done|].
  etrans; [exact Hm|apply Hh].
Qed.

Lemma respects_for_of {A} (l : list A) (body : A -> M unit) :
  (forall x, respects R (body x)) -> respects R (for_of l body).
Proof.
  intros Hb. induction l as [|x l IH]; cbn [for_of].
  - apply respects_ret.
  - apply respects_bind; [apply Hb|done].
Qed.

Lemma respects_modify (f : World -> World) :
  (forall w, R w (f w)) -> respects R (modify f).
Proof. intros Hf w. apply Hf. Qed.

Lemma respects_read {A} (f : World -> A) : respects R (read f).
Proof. intros w. reflexivity. Qed.

Lemma respects_deref (data : loc) : respects R (deref data).
Proof. intros w. unfold deref. destruct (heap w !! data); reflexivity. Qed.

Lemma respects_alloc (d : DisplayPreferencesDto) : respects R (alloc d).
Proof. intros w. apply frame_heap. Qed.

Lemma respects_await {A} (r : Reply A) : respects R (await r).
Proof.
  destruct r; cbn [await];
    (apply respects_bind;
     [apply respects_modify; intros w; apply frame_advance
     |intros _; first [apply respects_throw|apply respects_ret]]).
Qed.

(** The structural steps, and the case analysis on a scrutinee. *)
Ltac frame_step :=
  first
    [ apply respects_ret | apply respects_throw | apply respects_read
    | apply respects_deref | apply respects_alloc | apply respects_await
    | apply respects_modify; intros ?;
      first [apply frame_heap | apply frame_requests | apply frame_snackbar]
    | apply respects_bind; [|intros ?]
    | apply respects_try_catch; [|intros ?]
    | apply respects_for_of; intros ?
    | match goal with
      | |- respects _ (match ?x with _ => _ end) => destruct x
      end ].

Ltac frame := repeat frame_step.

Lemma respects_set_CustomPrefs (data : loc) o : respects R (set_CustomPrefs data o).
Proof. unfold set_CustomPrefs. frame. Qed.

Lemma respects_CustomPrefs_assign (data : loc) (key : string) (v : value) :
  respects R (CustomPrefs_assign data key v).
Proof. unfold CustomPrefs_assign. frame. Qed.

Lemma respects_CustomPrefs_delete (data : loc) (key : string) :
  respects R (CustomPrefs_delete data key).
Proof. unfold CustomPrefs_delete. frame. Qed.

Lemma respects_CustomPrefs_entries (data : loc) :
  respects R (CustomPrefs_entries data).
Proof. unfold CustomPrefs_entries. frame. Qed.

Lemma respects_getDisplayPreferences (env : Env) :
  respects R (api_getDisplayPreferences env).
Proof. unfold api_getDisplayPreferences. frame. Qed.

Lemma respects_updateDisplayPreferences (env : Env) (data : loc) :
  respects R (api_updateDisplayPreferences env data).
Proof. unfold api_updateDisplayPreferences. frame. Qed.

Lemma respects_pushSnackbarMessage (msg : SnackbarMessage) :
  respects R (dispatch_pushSnackbarMessage msg).
Proof. unfold dispatch_pushSnackbarMessage. frame. Qed.

Lemma respects_fillCustomPrefs (displayPrefs : loc) :
  respects R (fillCustomPrefs displayPrefs).
Proof. unfold fillCustomPrefs. frame. Qed.

Lemma respects_sendCustomPrefs (env : Env) (displayPrefs : loc) :
  respects R (sendCustomPrefs env displayPrefs).
Proof. unfold sendCustomPrefs. frame. Qed.

Lemma respects_castResponse JSON_parse settingState (data : loc) :
  respects R (castResponse JSON_parse settingState data).
Proof. unfold castResponse. frame. Qed.

(** [pushState] respects a relation that its two commits respect and that
    allows a truthy [status] to leave the settings store. *)
Lemma respects_pushState (env : Env) :
  (forall w, R w (with_state (SYNCING_STARTED (now w)) w)) ->
  (forall w, R w (with_state (SYNCING_ENDED (now w)) w)) ->
  (forall w, Boolean (get (settings w) "status") = true ->
             R w (with_settings (delete "status") w)) ->
  respects R (pushState env).
Proof.
  intros Hstart Hend Hdel. unfold pushState.
  destruct (loggedIn env); [|apply respects_ret].
  apply respects_bind; [intros w; apply Hstart|intros _].
  apply respects_bind; [|intros _; intros w; apply Hend].
  apply respects_try_catch; [|intros e; apply respects_pushSnackbarMessage].
  apply respects_bind; [apply respects_getDisplayPreferences|intros r].
  apply respects_bind;
    [destruct (negb _); [apply respects_throw|apply respects_ret]|intros _].
  apply respects_bind; [apply respects_set_CustomPrefs|intros _].
  intros w. unfold bind at 1, read. apply respects_bind_at.
  - destruct (Boolean _) eqn:Hstatus; [by apply Hdel|reflexivity].
  - intros _. apply respects_bind; [apply respects_fillCustomPrefs|intros _].
    apply respects_sendCustomPrefs.
Qed.

(** [initState] respects a relation that its two commits and the commit to
    the settings store respect. *)
Lemma respects_initState JSON_parse settingState (env : Env) :
  (forall w, R w (with_state (SYNCING_STARTED (now w)) w)) ->
  (forall w, R w (with_state (SYNCING_ENDED (now w)) w)) ->
  (forall data f w, R w (with_committed f (with_settings (settings_INIT_STATE data) w))) ->
  respects R (initState JSON_parse settingState env).
Proof.
  intros Hstart Hend Hinit. unfold initState.
  destruct (loggedIn env); [|apply respects_ret].
  apply respects_bind; [intros w; apply Hstart|intros _].
  apply respects_bind; [|intros _; intros w; apply Hend].
  apply respects_try_catch; [|intros e; apply respects_pushSnackbarMessage].
  apply respects_bind; [apply respects_getDisplayPreferences|intros r].
  apply respects_bind;
    [destruct (negb _); [apply respects_throw|apply respects_ret]|intros _].
  apply respects_bind; [apply respects_castResponse|intros data].
  apply respects_bind; [apply respects_deref|intros d].
  destruct (CustomPrefs d); [|apply respects_ret].
  apply respects_bind.
  - apply respects_for_of. intros key.
    destruct (negb _); [apply respects_CustomPrefs_delete|apply respects_ret].
  - intros _. apply respects_bind; [apply respects_deref|intros d'].
    apply respects_modify. intros w. apply Hinit.
Qed.

End Respects.

(** *** The relations used below *)

#[local] Instance same_LastSettingChange_frame : Frame same_LastSettingChange.
Proof.
  split; [split|..]; unfold same_LastSettingChange; try done.
  intros w1 w2 w3 H1 H2. congruence.
Qed.

#[local] Instance same_settings_frame : Frame same_settings.
Proof.
  split; [split|..]; unfold same_settings; try done.
  intros w1 w2 w3 H1 H2. congruence.
Qed.

#[local] Instance status_dropped_frame : Frame status_dropped.
Proof.
  split; [split|..]; unfold status_dropped; try (by left).
  intros w1 w2 w3 [H1|[T1 H1]] [H2|[T2 H2]].
  - left. congruence.
  - right. rewrite H1 in T2, H2. done.
  - right. split; [done|congruence].
  - right. split; [done|]. rewrite H2, H1. apply delete_delete_eq.
Qed.

#[local] Instance clock_on_frame : Frame clock_on.
Proof.
  split; [split|..]; unfold clock_on, stamps_in_past.
  - intros w. split; [lia|done].
  - intros w1 w2 w3 [H1 P1] [H2 P2]. split; [lia|auto].
  - done.
  - done.
  - done.
  - intros n w. cbn. lia.
Qed.

(** ** The calls to the server, run *)

Lemma getDisplayPreferences_resolved (env : Env) (w : World) t status body :
  getReply env = Resolved t status body ->
  api_getDisplayPreferences env w =
    (Ok (status, fresh (dom (heap w))),
     with_heap (insert (fresh (dom (heap w))) body)
       (advance t (with_requests (fun l => l ++ [GetDisplayPreferences]) w))).
Proof. intros H. unfold api_getDisplayPreferences. by rewrite H. Qed.

Lemma getDisplayPreferences_rejected (env : Env) (w : World) t :
  getReply env = Rejected t ->
  api_getDisplayPreferences env w =
    (Throw (Error "Network Error"),
     advance t (with_requests (fun l => l ++ [GetDisplayPreferences]) w)).
Proof. intros H. unfold api_getDisplayPreferences. by rewrite H. Qed.

(** A [try] whose handler only reports to the snackbar always completes. *)
Lemma try_catch_snackbar (body : M unit) (msg : SnackbarMessage) (w : World) :
  (try_catch body (fun _ => dispatch_pushSnackbarMessage msg) w).1 = Ok tt.
Proof. unfold try_catch. by destruct (body w) as [[[]|e] w']. Qed.

(** ** The shape shared by [initState] and [pushState] *)

Lemma sync_block_run (body : M unit) (msg : SnackbarMessage) (w : World) :
  let w1 := with_state (SYNCING_STARTED (now w)) w in
  let w2 := (try_catch body (fun _ => dispatch_pushSnackbarMessage msg) w1).2 in
  sync_block body msg w = (Ok tt, with_state (SYNCING_ENDED (now w2)) w2).
Proof.
  cbn zeta. unfold sync_block. unfold bind at 1. cbn [commit].
  unfold bind.
  pose proof (try_catch_snackbar body msg (with_state (SYNCING_STARTED (now w)) w)) as Hok.
  destruct (try_catch _ _ _) as [[[]|e] w2]; cbn in *; [done|discriminate].
Qed.

Lemma sync_block_returns (body : M unit) (msg : SnackbarMessage) (w : World) :
  (sync_block body msg w).1 = Ok tt.
Proof. by rewrite sync_block_run. Qed.

Lemma sync_block_idle (body : M unit) (msg : SnackbarMessage) (w : World) :
  syncing (state (sync_block body msg w).2) = false.
Proof. by rewrite sync_block_run. Qed.

Section Actions.

Variable JSON_parse : string -> option value.
Variable settingState : object.

Local Abbreviation cast := (cast JSON_parse settingState).
Local Abbreviation castResponse := (castResponse JSON_parse settingState).
Local Abbreviation initState := (initState JSON_parse settingState).
Local Abbreviation castPrefs := (castPrefs JSON_parse settingState).
Local Abbreviation pulled := (pulled JSON_parse settingState).

Lemma initState_authenticated (env : Env) :
  loggedIn env = true ->
  exists body msg, initState env = sync_block body msg.
Proof. intros H. unfold Store.initState. rewrite H. by eexists _, _. Qed.

Lemma pushState_authenticated (env : Env) :
  loggedIn env = true ->
  exists body msg, pushState env = sync_block body msg.
Proof. intros H. unfold pushState. rewrite H. by eexists _, _. Qed.

Lemma initState_unauthenticated (env : Env) (w : World) :
  loggedIn env = false -> initState env w = (Ok tt, w).
Proof. intros H. unfold Store.initState. by rewrite H. Qed.

Lemma pushState_unauthenticated (env : Env) (w : World) :
  loggedIn env = false -> pushState env w = (Ok tt, w).
Proof. intros H. unfold pushState. by rewrite H. Qed.

Lemma initState_returns (env : Env) (w : World) : (initState env w).1 = Ok tt.
Proof.
  destruct (loggedIn env) eqn:H.
  - destruct (initState_authenticated env H) as (body & msg & ->).
    apply sync_block_returns.
  - by rewrite initState_unauthenticated.
Qed.

Lemma pushState_returns (env : Env) (w : World) : (pushState env w).1 = Ok tt.
Proof.
  destruct (loggedIn env) eqn:H.
  - destruct (pushState_authenticated env H) as (body & msg & ->).
    apply sync_block_returns.
  - by rewrite pushState_unauthenticated.
Qed.

Lemma initState_idle (env : Env) (w : World) :
  loggedIn env = true \/ syncing (state w) = false ->
  syncing (state (initState env w).2) = false.
Proof.
  destruct (loggedIn env) eqn:H.
  - intros _. destruct (initState_authenticated env H) as (body & msg & ->).
    apply sync_block_idle.
  - intros [?|Hs]; [done|]. by rewrite initState_unauthenticated.
Qed.

Lemma pushState_idle (env : Env) (w : World) :
  loggedIn env = true \/ syncing (state w) = false ->
  syncing (state (pushState env w).2) = false.
Proof.
  destruct (loggedIn env) eqn:H.
  - intros _. destruct (pushState_authenticated env H) as (body & msg & ->).
    apply sync_block_idle.
  - intros [?|Hs]; [done|]. by rewrite pushState_unauthenticated.
Qed.

Lemma pushState_same_LastSettingChange (env : Env) :
  respects same_LastSettingChange (pushState env).
Proof. by apply respects_pushState; [apply _|..]. Qed.

Lemma pushState_status_dropped (env : Env) :
  respects status_dropped (pushState env).
Proof.
  apply respects_pushState; [apply _|by left|by left|].
  intros w H. by right.
Qed.



Lemma lookup_pulled (o : object) (k : string) :
  pulled o !! k =
    if has k settingState then (fun v => default v (cast k v)) <$> o !! k else None.
Proof. unfold Spec.pulled. by rewrite lookup_delete_all, lookup_castPrefs. Qed.

(** *** The [try] blocks, run *)

Lemma fetched_Some (env : Env) (body : DisplayPreferencesDto) :
  fetched env = Some body <-> exists t, getReply env = Resolved t 200 body.
Proof.
  unfold fetched. split.
  - destruct (getReply env) as [t|t status b]; [done|].
    destruct (status =? 200) eqn:Hs; [|done].
    apply Z.eqb_eq in Hs as ->. intros [= ->]. by exists t.
  - by intros [t ->].
Qed.

Lemma fetched_None_throws {A} (env : Env) (w : World) (k : Z * loc -> M A) :
  fetched env = None ->
  exists e w',
    (response <- api_getDisplayPreferences env ;;
     (if negb (fst response =? 200) then throw (status_error "get" (fst response))
      else ret tt) ;;
     k response) w = (Throw e, w')
    /\ settings w' = settings w /\ committed w' = committed w
    /\ requests w' = requests w ++ [GetDisplayPreferences].
Proof.
  unfold fetched. intros Hf.
  destruct (getReply env) as [t|t status body] eqn:Hreply.
  - rewrite (bind_throw _ _ _ _ _ (getDisplayPreferences_rejected env w t Hreply)).
    by eexists _, _.
  - rewrite (bind_ok _ _ _ _ _ (getDisplayPreferences_resolved env w _ _ _ Hreply)).
    cbn [fst snd]. destruct (status =? 200); [done|]. by eexists _, _.
Qed.

Lemma fetched_Some_continues {A} (env : Env) (w : World) (k : Z * loc -> M A) body :
  fetched env = Some body ->
  exists t,
    (response <- api_getDisplayPreferences env ;;
     (if negb (fst response =? 200) then throw (status_error "get" (fst response))
      else ret tt) ;;
     k response) w
    = k (200, fresh (dom (heap w)))
        (with_heap (insert (fresh (dom (heap w))) body)
           (advance t (with_requests (fun l => l ++ [GetDisplayPreferences]) w))).
Proof.
  intros [t Hreply]%fetched_Some. exists t.
  by rewrite (bind_ok _ _ _ _ _ (getDisplayPreferences_resolved env w _ _ _ Hreply)).
Qed.

Lemma foldl_copy (store : object) :
  foldl (assign_step (fun _ v => Some v)) ∅ (map_to_list store) = store.
Proof.
  apply map_eq. intros k.
  rewrite foldl_assign_lookup by apply NoDup_fst_map_to_list.
  rewrite list_to_map_to_list, lookup_empty. by destruct (store !! k).
Qed.

Lemma assign_all_encode (store : object) :
  assign_all (fun _ v => Some (VStr (encode v))) store = encodePrefs store.
Proof.
  apply map_eq. intros k. unfold encodePrefs.
  rewrite lookup_assign_all, lookup_fmap. by destruct (store !! k).
Qed.

(** [fillCustomPrefs] leaves in the (emptied) document the string of every
    setting. *)
Lemma fillCustomPrefs_run (l : loc) (w : World) (d : DisplayPreferencesDto) :
  heap w !! l = Some d -> CustomPrefs d = Some ∅ ->
  fillCustomPrefs l w = (Ok tt, put l w d (encodePrefs (settings w))).
Proof.
  intros Hd Ho. unfold fillCustomPrefs. unfold bind at 1, read at 1.
  rewrite (bind_ok _ _ _ _ _
             (for_of_assign l (fun _ v => Some v) (map_to_list (settings w)) w d ∅ Hd Ho)).
  rewrite foldl_copy.
  set (d1 := {| CustomPrefs := Some (settings w); OtherProps := OtherProps d |}).
  set (w1 := put l w d (settings w)).
  assert (Hd1 : heap w1 !! l = Some d1) by apply lookup_insert_eq.
  assert (Hentries : CustomPrefs_entries l w1 = (Ok (map_to_list (settings w)), w1)).
  { unfold CustomPrefs_entries. by rewrite (bind_ok _ _ _ _ _ (deref_ok _ _ _ Hd1)). }
  rewrite (bind_ok _ _ _ _ _ Hentries).
  rewrite (for_of_assign l (fun _ v => Some (VStr (encode v))) _ w1 d1 (settings w) Hd1 eq_refl).
  fold (assign_all (fun _ v => Some (VStr (encode v))) (settings w)).
  rewrite assign_all_encode. unfold put, w1, put. by rewrite with_heap_insert_insert.
Qed.

Lemma sendCustomPrefs_run (env : Env) (l : loc) (w : World) (d : DisplayPreferencesDto) :
  heap w !! l = Some d ->
  exists r w',
    sendCustomPrefs env l w = (r, w')
    /\ settings w' = settings w
    /\ requests w' = requests w ++ [UpdateDisplayPreferences d].
Proof.
  intros Hd. unfold sendCustomPrefs, api_updateDisplayPreferences.
  unfold bind at 1. unfold bind at 1. rewrite (deref_ok _ _ _ Hd).
  unfold bind at 1, modify at 1.
  destruct (updateReply env) as [t|t status []]; cbn [await].
  - by eexists _, _.
  - unfold bind, modify, ret. cbn [fst].
    destruct (negb (status =? 204)); by eexists _, _.
Qed.

Lemma pushState_try_fetched (env : Env) (w : World) body :
  fetched env = Some body ->
  exists r w',
    pushState_try env w = (r, w')
    /\ settings w' = strip_status (settings w)
    /\ requests w' = requests w ++
         [GetDisplayPreferences;
          UpdateDisplayPreferences
            {| CustomPrefs := Some (encodePrefs (strip_status (settings w)));
               OtherProps := OtherProps body |}].
Proof.
  intros Hf. unfold pushState_try.
  edestruct (fetched_Some_continues (A:=unit) env w) as [t Hrun]; [exact Hf|].
  rewrite Hrun; clear Hrun.
  cbn [snd]. set (l := fresh _). set (w2 := with_heap _ _).
  assert (Hl : heap w2 !! l = Some body) by apply lookup_insert_eq.
  rewrite (bind_ok _ _ _ _ _ (set_CustomPrefs_ok l w2 body (Some ∅) Hl)).
  set (d3 := {| CustomPrefs := Some ∅; OtherProps := OtherProps body |}).
  set (w3 := with_heap _ w2).
  unfold bind at 1, read at 1. change (settings w3) with (settings w).
  set (w4 := if Boolean (get (settings w) "status")
             then with_settings (delete "status") w3 else w3).
  assert (Hstrip : forall k : unit -> M unit,
            ((if Boolean (get (settings w) "status")
              then modify (with_settings (delete "status")) else ret tt) ;; k tt) w3
            = k tt w4).
  { intros k. unfold w4. by destruct (Boolean _). }
  rewrite (Hstrip (fun _ => fillCustomPrefs l ;; sendCustomPrefs env l)).
  assert (Hs4 : settings w4 = strip_status (settings w)).
  { unfold w4, strip_status. by destruct (Boolean _). }
  assert (Hr4 : requests w4 = requests w ++ [GetDisplayPreferences]).
  { unfold w4. by destruct (Boolean _). }
  assert (Hl4 : heap w4 !! l = Some d3).
  { unfold w4. destruct (Boolean _); apply lookup_insert_eq. }
  rewrite (bind_ok _ _ _ _ _ (fillCustomPrefs_run l w4 d3 Hl4 eq_refl)).
  set (w5 := put l w4 d3 _).
  destruct (sendCustomPrefs_run env l w5 _ (lookup_insert_eq _ _ _))
    as (r & w' & -> & Hs & Hr).
  exists r, w'. split; [done|]. split.
  - by rewrite Hs, <- Hs4.
  - rewrite Hr. cbn [requests w5 put with_heap]. rewrite Hr4, Hs4.
    by rewrite <- app_assoc.
Qed.

Lemma initState_try_fetched (env : Env) (w : World) body :
  fetched env = Some body ->
  exists r w',
    initState_try JSON_parse settingState env w = (r, w')
    /\ settings w' = from_option (fun o => pulled o ∪ settings w) (settings w)
                       (CustomPrefs body)
    /\ committed w' = committed w ++ option_list (pulled <$> CustomPrefs body).
Proof.
  intros Hf. unfold initState_try.
  edestruct (fetched_Some_continues (A:=unit) env w) as [t Hrun]; [exact Hf|].
  rewrite Hrun; clear Hrun.
  cbn [snd]. set (l := fresh _). set (w2 := with_heap _ _).
  assert (Hl : heap w2 !! l = Some body) by apply lookup_insert_eq.
  destruct (CustomPrefs body) as [o|] eqn:Ho; cbn [from_option option_list fmap option_fmap option_map].
  - rewrite (bind_ok _ _ _ _ _ (castResponse_run JSON_parse settingState l w2 body o Hl Ho)).
    set (w3 := put l w2 body _).
    set (d3 := {| CustomPrefs := Some (castPrefs o); OtherProps := OtherProps body |}).
    assert (Hl3 : heap w3 !! l = Some d3) by apply lookup_insert_eq.
    rewrite (bind_ok _ _ _ _ _ (deref_ok l w3 d3 Hl3)). cbn [CustomPrefs d3].
    rewrite (bind_ok _ _ _ _ _
               (for_of_delete l (fun key => has key settingState) _ w3 d3 _ Hl3 eq_refl)).
    set (w4 := put l w3 d3 _).
    set (d4 := {| CustomPrefs := Some (pulled o); OtherProps := OtherProps d3 |}).
    assert (Hl4 : heap w4 !! l = Some d4) by apply lookup_insert_eq.
    rewrite (bind_ok _ _ _ _ _ (deref_ok l w4 d4 Hl4)).
    by eexists _, _.
  - rewrite (bind_throw _ _ _ _ _ (castResponse_null JSON_parse settingState l w2 body Hl Ho)).
    eexists _, _. split; [done|]. split; [done|]. cbn. by rewrite app_nil_r.
Qed.

Lemma pushState_try_failed (env : Env) (w : World) :
  fetched env = None ->
  exists e w',
    pushState_try env w = (Throw e, w')
    /\ settings w' = settings w /\ committed w' = committed w
    /\ requests w' = requests w ++ [GetDisplayPreferences].
Proof. intros Hf. unfold pushState_try. by apply fetched_None_throws. Qed.

Lemma initState_try_failed (env : Env) (w : World) :
  fetched env = None ->
  exists e w',
    initState_try JSON_parse settingState env w = (Throw e, w')
    /\ settings w' = settings w /\ committed w' = committed w
    /\ requests w' = requests w ++ [GetDisplayPreferences].
Proof. intros Hf. unfold initState_try. by apply fetched_None_throws. Qed.

(** *** The settings store and the logs across the two actions *)

Lemma sync_block_proj {A} (f : World -> A) (body : M unit) (msg : SnackbarMessage)
    (w : World) :
  (forall g w, f (with_state g w) = f w) ->
  (forall g w, f (with_snackbar g w) = f w) ->
  f (sync_block body msg w).2 = f (body (with_state (SYNCING_STARTED (now w)) w)).2.
Proof.
  intros Hstate Hsnack. rewrite sync_block_run. cbn [snd]. rewrite Hstate.
  unfold try_catch. destruct (body _) as [[[]|e] w']; [done|].
  apply Hsnack.
Qed.

Lemma pushState_store (env : Env) (w : World) :
  settings (pushState env w).2 = push_settings env (settings w)
  /\ requests (pushState env w).2 = requests w ++ push_requests env (settings w).
Proof.
  unfold pushState, push_settings, push_requests.
  destruct (loggedIn env); [|by cbn; rewrite app_nil_r].
  split.
  - etrans; [by apply (sync_block_proj settings)|].
    destruct (fetched env) as [body|] eqn:Hf.
    + by destruct (pushState_try_fetched env (with_state (SYNCING_STARTED (now w)) w)
                     body Hf) as (r & w' & -> & Hs & _).
    + by destruct (pushState_try_failed env (with_state (SYNCING_STARTED (now w)) w)
                     Hf) as (e & w' & -> & Hs & _).
  - etrans; [by apply (sync_block_proj requests)|].
    destruct (fetched env) as [body|] eqn:Hf.
    + by destruct (pushState_try_fetched env (with_state (SYNCING_STARTED (now w)) w)
                     body Hf) as (r & w' & -> & _ & Hr).
    + by destruct (pushState_try_failed env (with_state (SYNCING_STARTED (now w)) w)
                     Hf) as (e & w' & -> & _ & _ & Hr).
Qed.

Lemma initState_store (env : Env) (w : World) :
  settings (initState env w).2
    = from_option (fun p => p ∪ settings w) (settings w)
        (pull_payload JSON_parse settingState env)
  /\ committed (initState env w).2
     = committed w ++ option_list (pull_payload JSON_parse settingState env).
Proof.
  unfold Store.initState, pull_payload.
  destruct (loggedIn env); [|by cbn; rewrite app_nil_r].
  split.
  - etrans; [by apply (sync_block_proj settings)|].
    destruct (fetched env) as [body|] eqn:Hf; cbn [mbind option_bind].
    + destruct (initState_try_fetched env (with_state (SYNCING_STARTED (now w)) w)
                  body Hf) as (r & w' & -> & Hs & _).
      cbn [snd]. rewrite Hs. by destruct (CustomPrefs body).
    + by destruct (initState_try_failed env (with_state (SYNCING_STARTED (now w)) w)
                     Hf) as (e & w' & -> & Hs & _).
  - etrans; [by apply (sync_block_proj committed)|].
    destruct (fetched env) as [body|] eqn:Hf; cbn [mbind option_bind].
    + by destruct (initState_try_fetched env (with_state (SYNCING_STARTED (now w)) w)
                     body Hf) as (r & w' & -> & _ & Hc).
    + destruct (initState_try_failed env (with_state (SYNCING_STARTED (now w)) w)
                  Hf) as (e & w' & -> & _ & Hc & _).
      cbn. by rewrite app_nil_r.
Qed.

(** ** The specification's claims about the actions *)

(** C5, as the code has it: a pull or a push always returns normally,
    whatever the server replied (a rejected call, a status other than 200 or
    204, a document without custom preferences), so no error reaches the
    caller; an authenticated call ends with the tracker not syncing; a call
    made while not logged in leaves the syncing flag as it found it. *)
Theorem sync_always_ends (env : Env) (w : World) :
  (initState env w).1 = Ok tt
  /\ (pushState env w).1 = Ok tt
  /\ syncing (state (initState env w).2)
     = (if loggedIn env then false else syncing (state w))
  /\ syncing (state (pushState env w).2)
     = (if loggedIn env then false else syncing (state w)).
Proof.
  split; [apply initState_returns|]. split; [apply pushState_returns|].
  destruct (loggedIn env) eqn:H.
  - split; [apply initState_idle|apply pushState_idle]; by left.
  - by rewrite initState_unauthenticated, pushState_unauthenticated by done.
Qed.

(** C6: a pull or a push made while not logged in does nothing at all: the
    tracker, the settings store, the heap, the clock, the snackbar and the
    list of requests are as before, and the call returns normally. *)
Theorem unauthenticated_is_noop (env : Env) (w : World) :
  loggedIn env = false ->
  initState env w = (Ok tt, w) /\ pushState env w = (Ok tt, w).
Proof.
  intros H. split; [by apply initState_unauthenticated|by apply pushState_unauthenticated].
Qed.

(** C7, as the code has it: updateSettings writes [Date.now()], read before
    the push runs, to LastSettingChange; the push leaves that field alone
    whatever the server replies, and the call returns normally, so the field
    ends equal to that reading of the clock.  It ends no smaller than it was
    exactly when the value it held was not ahead of the clock. *)
Theorem updateSettings_stamp (env : Env) (w : World) :
  updateSettings env w
    = pushState env (with_state (UPDATE_CLIENT_SETTINGS (now w)) w)
  /\ (updateSettings env w).1 = Ok tt
  /\ LastSettingChange (state (updateSettings env w).2) = now w
  /\ (LastSettingChange (state w) <= LastSettingChange (state (updateSettings env w).2)
      <-> LastSettingChange (state w) <= now w).
Proof.
  assert (Hrun : updateSettings env w
                 = pushState env (with_state (UPDATE_CLIENT_SETTINGS (now w)) w)) by done.
  assert (Hstamp : LastSettingChange (state (updateSettings env w).2) = now w).
  { rewrite Hrun. by rewrite (pushState_same_LastSettingChange env _). }
  split; [done|]. split; [rewrite Hrun; apply pushState_returns|].
  split; [done|]. by rewrite Hstamp.
Qed.

(** C9, as the code has it: castResponse hands back the very document it
    was given and rewrites that document's custom preferences in place;
    every key is kept, and its value is replaced by the value cast after the
    type of the key's default setting (or left as it is when no rule
    applies); nothing else in the world changes. *)
Theorem castResponse_in_place (data : loc) (w : World) (d : DisplayPreferencesDto)
    (o : object) :
  heap w !! data = Some d ->
  CustomPrefs d = Some o ->
  castResponse data w
    = (Ok data,
       with_heap (insert data {| CustomPrefs := Some (castPrefs o);
                                 OtherProps := OtherProps d |}) w)
  /\ forall k, castPrefs o !! k
               = (fun v => default v (cast k v)) <$> o !! k.
Proof.
  intros Hd Ho. split; [by apply castResponse_run|apply lookup_castPrefs].
Qed.

End Actions.

(** C10, as the code has it: pushState leaves every field of the settings
    store other than [status] as it was; it deletes [status] from the store
    itself exactly when the user is logged in, the document was fetched with
    status 200 and [status] holds a truthy value, and otherwise leaves the
    store unchanged. *)
Theorem pushState_settings (env : Env) (w : World) :
  let w' := (pushState env w).2 in
  (forall k, k <> "status" -> settings w' !! k = settings w !! k)
  /\ (loggedIn env = true ->
      (exists t body, getReply env = Resolved t 200 body) ->
      Boolean (get (settings w) "status") = true ->
      settings w' = delete "status" (settings w))
  /\ (loggedIn env = false
      \/ (forall t body, getReply env <> Resolved t 200 body)
      \/ Boolean (get (settings w) "status") = false ->
      settings w' = settings w).
Proof.
  cbn zeta. split; [|split].
  - intros k Hk. destruct (pushState_status_dropped env w) as [->|[_ ->]]; [done|].
    by apply lookup_delete_ne.
  - intros Hlog (t & body & Hreply) Hstatus.
    destruct (pushState_store env w) as [-> _].
    assert (Hf : fetched env = Some body) by (apply fetched_Some; eauto).
    unfold push_settings, strip_status. by rewrite Hlog, Hf, Hstatus.
  - intros [Hlog|[Hfail|Hstatus]].
    + by rewrite pushState_unauthenticated.
    + destruct (pushState_store env w) as [-> _]. unfold push_settings.
      destruct (fetched env) as [body|] eqn:Hf; [|by destruct (loggedIn env)].
      apply fetched_Some in Hf as [t Hreply]. by destruct (Hfail t body).
    + destruct (pushState_status_dropped env w) as [->|[Htrue _]]; [done|congruence].
Qed.

(** ** Further properties of the actions *)

Section Further.

Variable JSON_parse : string -> option value.
Variable settingState : object.

Local Abbreviation initState := (initState JSON_parse settingState).
Local Abbreviation pull_payload := (pull_payload JSON_parse settingState).

(** X1, the key filter of [initState]: a run commits at most one payload to the
    settings store, the one of a document fetched with status 200 that has
    custom preferences; and no key that fails the [in] test on the default
    settings state is in the payload. *)
Theorem initState_commits_filtered (env : Env) (w : World) :
  committed (initState env w).2 = committed w ++ option_list (pull_payload env)
  /\ forall p k, pull_payload env = Some p ->
                 has k settingState = false -> p !! k = None.
Proof.
  destruct (initState_store JSON_parse settingState env w) as [Hs Hc].
  split; [done|].
  intros p k Hp Hk. unfold Spec.pull_payload in Hp.
  destruct (loggedIn env); [|done].
  destruct (fetched env) as [body|]; [|done]. cbn in Hp.
  destruct (CustomPrefs body) as [o|]; [|done].
  injection Hp as <-. by rewrite lookup_pulled, Hk.
Qed.

(** X2: the end of a sync stamps LastSync, for a pull and for a push alike:
    after an authenticated run LastSync is the reading of the clock at the
    end of the run. *)
Theorem sync_stamps_LastSync (env : Env) (w : World) :
  loggedIn env = true ->
  LastSync (state (initState env w).2) = now (initState env w).2
  /\ LastSync (state (pushState env w).2) = now (pushState env w).2.
Proof.
  intros H. split.
  - destruct (initState_authenticated JSON_parse settingState env H) as (body & msg & ->).
    by rewrite sync_block_run.
  - destruct (pushState_authenticated env H) as (body & msg & ->).
    by rewrite sync_block_run.
Qed.


End Further.

(** X4, the partial-update workaround of [pushState]: a run fetches before it
    sends.  The requests it makes are, in this order, the fetch (when logged
    in) and, when the fetch resolved with status 200, one update whose
    document is the fetched one with its custom preferences replaced by the
    string of every setting left in the store. *)
Theorem pushState_fetches_then_sends (env : Env) (w : World) :
  requests (pushState env w).2 = requests w ++ push_requests env (settings w)
  /\ settings (pushState env w).2 = push_settings env (settings w)
  /\ forall store k, encodePrefs store !! k = (fun v => VStr (encode v)) <$> store !! k.
Proof.
  destruct (pushState_store env w) as [Hs Hr].
  split; [done|]. split; [done|]. intros store k. apply lookup_fmap.
Qed.

(** ** Concrete runs *)

(** Runs on concrete worlds are settled by evaluation. *)
Ltac run := repeat split; vm_compute; reflexivity.

(** C5: a pull and a push made while not logged in, on a tracker that is in
    the middle of a sync, return with the tracker still syncing. *)
Lemma unauthenticated_call_stays_syncing :
  syncing (state (world busy ∅)) = true
  /\ (initState JSON_rejects schema logged_out (world busy ∅)).1 = Ok tt
  /\ syncing (state (initState JSON_rejects schema logged_out (world busy ∅)).2) = true
  /\ (pushState logged_out (world busy ∅)).1 = Ok tt
  /\ syncing (state (pushState logged_out (world busy ∅)).2) = true.
Proof. run. Qed.

Lemma unauthenticated_is_noop_witness :
  initState JSON_rejects schema logged_out (world busy ∅) = (Ok tt, world busy ∅)
  /\ pushState logged_out (world busy ∅) = (Ok tt, world busy ∅).
Proof.
  apply (unauthenticated_is_noop JSON_rejects schema logged_out (world busy ∅)).
  reflexivity.
Defined.

(** C7: on a tracker whose stamp is ahead of the clock, updateSettings
    returns normally with a stamp smaller than the one it found. *)
Lemma updateSettings_stamp_goes_back :
  LastSettingChange (state (world ahead ∅)) = 5000
  /\ (updateSettings (server ∅) (world ahead ∅)).1 = Ok tt
  /\ LastSettingChange (state (updateSettings (server ∅) (world ahead ∅)).2) = 1000
  /\ (LastSettingChange (state (updateSettings (server ∅) (world ahead ∅)).2)
       <? LastSettingChange (state (world ahead ∅))) = true.
Proof. run. Qed.

(** C9: castResponse returns its argument, and the document it was given no
    longer holds the string it held. *)
Lemma castResponse_mutates_input :
  (castResponse JSON_rejects schema 1%positive (received {[ "darkMode" := VStr "x" ]})).1
    = Ok 1%positive
  /\ heap (received {[ "darkMode" := VStr "x" ]}) !! 1%positive
     = Some (document {[ "darkMode" := VStr "x" ]})
  /\ heap (castResponse JSON_rejects schema 1%positive
             (received {[ "darkMode" := VStr "x" ]})).2 !! 1%positive
     = Some (document {[ "darkMode" := VBool true ]}).
Proof. run. Qed.

Lemma castResponse_in_place_witness :
  castResponse JSON_rejects schema 1%positive (received {[ "darkMode" := VStr "x" ]})
    = (Ok 1%positive,
       with_heap
         (insert 1%positive
            {| CustomPrefs :=
                 Some (castPrefs JSON_rejects schema {[ "darkMode" := VStr "x" ]});
               OtherProps := OtherProps (document {[ "darkMode" := VStr "x" ]}) |})
         (received {[ "darkMode" := VStr "x" ]}))
  /\ forall k, castPrefs JSON_rejects schema {[ "darkMode" := VStr "x" ]} !! k
               = (fun v => default v (cast JSON_rejects schema k v))
                   <$> ({[ "darkMode" := VStr "x" ]} : object) !! k.
Proof.
  apply (castResponse_in_place JSON_rejects schema 1%positive
           (received {[ "darkMode" := VStr "x" ]})
           (document {[ "darkMode" := VStr "x" ]})).
  - reflexivity.
  - reflexivity.
Defined.

Lemma sync_stamps_LastSync_witness :
  LastSync (state (initState JSON_rejects schema server_down (world busy ∅)).2)
    = now (initState JSON_rejects schema server_down (world busy ∅)).2
  /\ LastSync (state (pushState server_down (world busy ∅)).2)
     = now (pushState server_down (world busy ∅)).2.
Proof.
  apply (sync_stamps_LastSync JSON_rejects schema server_down (world busy ∅)).
  reflexivity.
Defined.


Lemma pushState_settings_witness :
  settings (pushState (server ∅) (world defaultState {[ "status" := VStr "ok" ]})).2
  = delete "status" (settings (world defaultState {[ "status" := VStr "ok" ]})).
Proof.
  apply (pushState_settings (server ∅) (world defaultState {[ "status" := VStr "ok" ]})).
  - reflexivity.
  - exists 5%N, (document ∅). reflexivity.
  - reflexivity.
Defined.

Lemma initState_commits_filtered_witness :
  pulled JSON_rejects schema {[ "legacyFeature" := VStr "1" ]} !! "legacyFeature" = None.
Proof.
  apply (initState_commits_filtered JSON_rejects schema
           (server {[ "legacyFeature" := VStr "1" ]}) (world defaultState ∅)).
  - reflexivity.
  - reflexivity.
Defined.

(** C10: a [status] field stays in the settings store when the fetch fails,
    and also when the fetch succeeds but the field holds a falsy value (it
    is then sent to the server with the other settings). *)
Lemma pushState_keeps_status :
  settings (pushState server_down (world defaultState {[ "status" := VStr "ok" ]})).2
    = {[ "status" := VStr "ok" ]}
  /\ settings (pushState (server ∅) (world defaultState {[ "status" := VStr "" ]})).2
     = {[ "status" := VStr "" ]}
  /\ sent (pushState (server ∅) (world defaultState {[ "status" := VStr "" ]})).2
     = [Some [("status", VStr "")]].
Proof. run. Qed.

(** The deletion does happen after a successful fetch of a truthy [status]. *)
Example pushState_drops_status :
  settings (pushState (server ∅)
              (world defaultState {[ "status" := VStr "ok"; "darkMode" := VBool true ]})).2
    = {[ "darkMode" := VBool true ]}.
Proof. run. Qed.

(** ** Where the code parts from the specification *)

(** C2: for a key whose default setting is a boolean, castResponse turns the
    string [false] into the boolean [true]: [Boolean] of a non-empty string
    is true. *)
Theorem cast_false_is_true (JSON_parse : string -> option value)
    (settingState : object) (key : string) (b : bool) :
  cast JSON_parse (<[key := VBool b]> settingState) key (VStr "false")
    = Some (VBool true).
Proof. unfold cast, get. by rewrite lookup_insert_eq. Qed.

(** C1: the setting [darkMode = false] is pushed as the string [false], and
    a pull of that very document commits [darkMode = true] to the settings
    store: decoding the encoding of [{ darkMode: false }] and filtering it
    gives [{ darkMode: true }]. *)
Theorem roundtrip_turns_false_into_true (JSON_parse : string -> option value) :
  sent (pushState (server ∅) (world defaultState {[ "darkMode" := VBool false ]})).2
    = [Some [("darkMode", VStr "false")]]
  /\ committed (initState JSON_parse schema (server {[ "darkMode" := VStr "false" ]})
                  (world defaultState {[ "darkMode" := VBool false ]})).2
     = [ {[ "darkMode" := VBool true ]} ]
  /\ pulled JSON_parse schema (encodePrefs {[ "darkMode" := VBool false ]})
     = {[ "darkMode" := VBool true ]}.
Proof. run. Qed.

(** Settings that do come back as they were pushed: [true], and a number. *)
Example roundtrip_of_true_and_seven (JSON_parse : string -> option value) :
  pulled JSON_parse schema
    (encodePrefs {[ "darkMode" := VBool true; "volume" := VNum (number_of_N 7) ]})
  = {[ "darkMode" := VBool true; "volume" := VNum (number_of_N 7) ]}.
Proof. run. Qed.

(** C3: the array [1, a, true] is pushed as the string [[1,a,true]]; cast
    back for a key whose default setting is an array, that string is split
    at its commas with the brackets left in place, so that [destr] is given
    the texts [[1], [a] and [true]]: the last element is the string
    [true]], not the boolean, and the first is the string [[1] unless
    [JSON.parse] accepts that text. *)
Theorem sequence_keeps_its_brackets (JSON_parse : string -> option value)
    (settingState : object) (key : string) (l : list value) :
  encode (VArr [VNum one; VStr "a"; VBool true]) = "[1,a,true]"
  /\ cast JSON_parse (<[key := VArr l]> settingState) key (VStr "[1,a,true]")
     = Some (VArr [destr JSON_parse "[1"; VStr "a"; VStr "true]"])
  /\ destr JSON_parse "[1" = default (VStr "[1") (JSON_parse "[1").
Proof.
  split; [reflexivity|]. split.
  - unfold cast, get. by rewrite lookup_insert_eq.
  - unfold destr. cbn. by destruct (JSON_parse _).
Qed.

(** C4: a key of the remote document that names a method every object
    inherits, such as [toString], passes the [in] test on the default
    settings state and is committed to the settings store, although the
    default settings state does not define it; [legacyFeature] is deleted. *)
Theorem inherited_key_is_kept (JSON_parse : string -> option value) :
  schema !! "toString" = None
  /\ has "toString" schema = true
  /\ committed
       (initState JSON_parse schema
          (server {[ "darkMode" := VStr "x"; "legacyFeature" := VStr "1";
                     "toString" := VStr "f" ]})
          (world defaultState ∅)).2
     = [ {[ "darkMode" := VBool true; "toString" := VStr "f" ]} ].
Proof. run. Qed.

(** C8: RESET_STATE copies the own enumerable properties of the function
    [defaultState], of which there are none: resetState leaves the tracker
    (and everything else) as it was, and a tracker away from its defaults
    stays away from them. *)
Theorem resetState_changes_nothing (w : World) :
  resetState w = (Ok tt, w)
  /\ state (resetState (world busy ∅)).2 = busy
  /\ busy <> defaultState.
Proof.
  split; [|split; [reflexivity|discriminate]].
  unfold resetState, commit, with_state, RESET_STATE, Object_assign. cbn.
  by rewrite World_eta.
Qed.

(** ** Numbers: parsing what [Number::toString] prints *)

Lemma digit_cases (c : ascii) :
  is_digit c = true ->
  is_space c = false /\ is_char c "." = false /\ is_char c "e" = false
  /\ is_char c "E" = false /\ is_char c "-" = false /\ is_char c "+" = false
  /\ is_char c "I" = false /\ radix_of c = None.
Proof.
  destruct c as [[] [] [] [] [] [] [] []]; try discriminate; intros _; repeat split.
Qed.

Lemma chars_of_chars l : chars (of_chars l) = l.
Proof. apply list_ascii_of_string_of_list_ascii. Qed.

Lemma span_digits_app (a r : list ascii) :
  forallb is_digit a = true ->
  match r with c :: _ => is_digit c = false | [] => True end ->
  span_digits (a ++ r) = (a, r).
Proof.
  intros Ha Hr. induction a as [|c a IH]; cbn.
  - destruct r as [|c r]; [done|]. cbn. by rewrite Hr.
  - cbn in Ha. apply andb_prop in Ha as [Hc Ha]. rewrite Hc, (IH Ha). done.
Qed.

Lemma drop_zeros_zeros k l : drop_zeros (repeat "0"%char k ++ l) = drop_zeros l.
Proof. induction k; [done|]. cbn. done. Qed.

Lemma fold_digits_uint u acc :
  fold_left (fun acc c => acc * 10 + (code c - 48))%N (chars (NilEmpty.string_of_uint u)) acc
  = uint_value u acc.
Proof.
  revert acc. induction u; intros acc; cbn; try done; rewrite <- IHu; f_equal; lia.
Qed.

Lemma of_uint_acc_value u p : Npos (Pos.of_uint_acc u p) = uint_value u (Npos p).
Proof.
  revert p. induction u; intros p; cbn [Pos.of_uint_acc uint_value]; try done;
    rewrite IHu; f_equal; lia.
Qed.

Lemma of_uint_value u : Pos.of_uint u = uint_value u 0.
Proof.
  induction u; cbn [Pos.of_uint uint_value]; try done;
    rewrite of_uint_acc_value; f_equal.
Qed.

Lemma digits_all u : forallb is_digit (chars (NilEmpty.string_of_uint u)) = true.
Proof. induction u; cbn; try done. Qed.

Lemma N_to_uint_string (m : N) :
  NilZero.string_of_uint (N.to_uint m) = NilEmpty.string_of_uint (N.to_uint m)
  /\ chars (NilEmpty.string_of_uint (N.to_uint m)) <> [].
Proof.
  destruct m as [|p]; [done|]. cbn [N.to_uint].
  pose proof (DecimalPos.Unsigned.to_uint_nonnil p) as Hp.
  unfold NilZero.string_of_uint. destruct (Pos.to_uint p); try done.
Qed.

Lemma N_of_digits_to_uint (m : N) :
  N_of_digits (chars (NilZero.string_of_uint (N.to_uint m))) = m.
Proof.
  destruct (N_to_uint_string m) as [-> _]. unfold N_of_digits.
  rewrite fold_digits_uint, <- of_uint_value. apply DecimalN.Unsigned.of_to.
Qed.

Lemma zeros_digits k : forallb is_digit (zeros k) = true.
Proof. unfold zeros. induction (Z.to_nat k); [done|]. cbn. done. Qed.

Lemma rev_zeros k : rev (zeros k) = zeros k.
Proof.
  unfold zeros. induction (Z.to_nat k) as [|m IH]; [done|].
  cbn [repeat rev]. rewrite IH. clear IH. induction m; [done|]. cbn. by f_equal.
Qed.

Lemma length_zeros k : 0 <= k -> Z.of_nat (length (zeros k)) = k.
Proof. intros H. unfold zeros. rewrite repeat_length. lia. Qed.

(** The digits [ds] between zeros: the number [ds] with its decimal point
    moved. *)
Lemma mk_number_digits neg ds a b e :
  number_ok (Finite neg ds 0) = true ->
  0 <= b ->
  mk_number neg (zeros a ++ ds ++ zeros b) e
  = Finite neg ds (Z.of_nat (length ds) + b + e).
Proof.
  intros Hok Hb. cbn in Hok.
  apply andb_prop in Hok as [Hok Hlast]. apply andb_prop in Hok as [Hdig Hfirst].
  destruct ds as [|c ds]; [done|].
  assert (Hlead : drop_zeros (zeros a ++ (c :: ds) ++ zeros b) = (c :: ds) ++ zeros b).
  { unfold zeros at 1. rewrite drop_zeros_zeros. cbn. by destruct (is_zero_char c). }
  assert (Hsig : rev (drop_zeros (rev ((c :: ds) ++ zeros b))) = c :: ds).
  { rewrite rev_app_distr, rev_zeros. unfold zeros. rewrite drop_zeros_zeros.
    rewrite <- (rev_involutive (c :: ds)) at 2. f_equal.
    destruct (rev (c :: ds)) as [|c' l']; [done|]. cbn. by destruct (is_zero_char c'). }
  unfold mk_number. cbv zeta. rewrite Hlead, Hsig.
  rewrite length_app, Nat2Z.inj_add, length_zeros by done. done.
Qed.

Lemma zero_char_cases (c : ascii) :
  is_zero_char c = false -> is_char c "0" = false.
Proof. destruct c as [[] [] [] [] [] [] [] []]; done. Qed.

Lemma not_Infinity c l neg' :
  is_digit c = true ->
  (if chars_eqb (c :: l) (chars "Infinity") then Infinity neg' else NaN) = NaN.
Proof.
  intros Hc. destruct (digit_cases c Hc) as (_ & _ & _ & _ & _ & _ & HI & _).
  unfold chars_eqb. cbn. unfold is_char in HI. by rewrite HI.
Qed.

Lemma rev_ends_digit (a b : list ascii) :
  forallb is_digit b = true -> b <> [] ->
  exists c l, rev (a ++ b) = c :: l /\ is_digit c = true.
Proof.
  intros Hb Hne. rewrite rev_app_distr.
  destruct (rev b) as [|c l] eqn:Hrev.
  - apply (f_equal (@rev ascii)) in Hrev. rewrite rev_involutive in Hrev. done.
  - exists c, (l ++ rev a). split; [done|].
    rewrite forallb_forall in Hb. apply Hb, in_rev. rewrite Hrev. by left.
Qed.

Lemma trim_id (c : ascii) (l : list ascii) :
  is_space c = false ->
  (exists c' l', rev (c :: l) = c' :: l' /\ is_digit c' = true) ->
  trim (c :: l) = c :: l.
Proof.
  intros Hc (c' & l' & Hrev & Hc'). unfold trim. cbn [drop_spaces]. rewrite Hc, Hrev.
  cbn [drop_spaces]. destruct (digit_cases c' Hc') as (-> & _).
  by rewrite <- Hrev, rev_involutive.
Qed.

Lemma exponent_part_print (E : Z) :
  exponent_part ("e"%char :: (if E <? 0 then "-"%char else "+"%char) :: string_of_Z_abs E)
  = Some E.
Proof.
  unfold exponent_part, string_of_Z_abs. cbn [is_char Ascii.eqb Bool.eqb orb].
  pose proof (N_of_digits_to_uint (Z.abs_N E)) as Hval.
  destruct (N_to_uint_string (Z.abs_N E)) as [Heq Hne]. rewrite Heq in Hval |- *.
  set (ds := chars (NilEmpty.string_of_uint (N.to_uint (Z.abs_N E)))) in *.
  assert (Hspan : span_digits ds = (ds, [])).
  { rewrite <- (app_nil_r ds) at 1. apply span_digits_app; [apply digits_all|done]. }
  destruct (E <? 0) eqn:Hneg; cbn [is_char Ascii.eqb Bool.eqb]; rewrite Hspan;
    destruct ds; try done; rewrite Hval; f_equal; lia.
Qed.

Lemma unsigned_decimal_int (neg : bool) (c : ascii) (ip ex : list ascii) (e : Z) :
  forallb is_digit (c :: ip) = true -> stops_digits ex ->
  exponent_part ex = Some e ->
  unsigned_decimal neg ((c :: ip) ++ ex) = mk_number neg (c :: ip) e.
Proof.
  intros Hip Hex He. unfold unsigned_decimal.
  assert (Hc : is_digit c = true) by (cbn in Hip; by apply andb_prop in Hip as [? _]).
  destruct (digit_cases c Hc) as (_ & _ & _ & _ & _ & _ & HI & _).
  assert (Hinf : chars_eqb ((c :: ip) ++ ex) (chars "Infinity") = false).
  { unfold chars_eqb. cbn. unfold is_char in HI. by rewrite HI. }
  rewrite Hinf, span_digits_app; [|done|by destruct ex as [|? ?]; [|destruct Hex]].
  assert (Hfp : match ex with
                | c0 :: r => if is_char c0 "." then span_digits r else ([], ex)
                | [] => ([], ex)
                end = ([], ex)).
  { destruct ex as [|c0 r]; [done|]. destruct Hex as [_ ->]. done. }
  rewrite Hfp, app_nil_r, He. cbn [length]. by rewrite Z.sub_0_r.
Qed.

Lemma unsigned_decimal_frac (neg : bool) (c : ascii) (ip fp ex : list ascii) (e : Z) :
  forallb is_digit (c :: ip) = true -> forallb is_digit fp = true ->
  stops_digits ex -> exponent_part ex = Some e ->
  unsigned_decimal neg ((c :: ip) ++ "."%char :: fp ++ ex)
  = mk_number neg ((c :: ip) ++ fp) (e - Z.of_nat (length fp)).
Proof.
  intros Hip Hfp Hex He. unfold unsigned_decimal.
  assert (Hc : is_digit c = true) by (cbn in Hip; by apply andb_prop in Hip as [? _]).
  destruct (digit_cases c Hc) as (_ & _ & _ & _ & _ & _ & HI & _).
  assert (Hinf : chars_eqb ((c :: ip) ++ "."%char :: fp ++ ex) (chars "Infinity") = false).
  { unfold chars_eqb. cbn. unfold is_char in HI. by rewrite HI. }
  rewrite Hinf, span_digits_app; [|done|done].
  cbn [is_char Ascii.eqb Bool.eqb].
  rewrite span_digits_app; [|done|by destruct ex as [|? ?]; [|destruct Hex]].
  rewrite He. done.
Qed.

Lemma StringToNumber_signed (neg : bool) (c : ascii) (r : list ascii) :
  is_digit c = true ->
  (exists c' l', rev (c :: r) = c' :: l' /\ is_digit c' = true) ->
  is_zero_char c = false \/ match r with p :: _ => is_char p "." = true | [] => True end ->
  StringToNumber (of_chars (if neg then "-"%char :: c :: r else c :: r))
  = unsigned_decimal neg (c :: r).
Proof.
  intros Hc Hend Hradix. unfold StringToNumber. rewrite chars_of_chars.
  destruct (digit_cases c Hc) as (Hsp & _ & _ & _ & Hminus & Hplus & _).
  destruct neg.
  - rewrite trim_id; [|done|].
    + cbn [is_char Ascii.eqb Bool.eqb]. done.
    + destruct Hend as (c' & l' & Hrev & Hc'). cbn [rev] in Hrev |- *.
      rewrite Hrev. by exists c', (l' ++ ["-"%char]).
  - rewrite trim_id by done. rewrite Hminus, Hplus.
    destruct r as [|p r']; [done|].
    destruct Hradix as [Hz|Hp].
    + by rewrite (zero_char_cases c Hz).
    + destruct (is_char c "0"); [|done].
      assert (p = "."%char) as -> by (by apply Ascii.eqb_eq). done.
Qed.

Lemma number_ok_Finite neg ds n :
  number_ok (Finite neg ds n) = true ->
  exists c ds', ds = c :: ds' /\ forallb is_digit ds = true
                /\ is_digit c = true /\ is_zero_char c = false.
Proof.
  cbn. intros H. apply andb_prop in H as [H _]. apply andb_prop in H as [Hdig Hfirst].
  destruct ds as [|c ds']; [done|]. exists c, ds'. split; [done|]. split; [done|].
  cbn in Hdig. apply andb_prop in Hdig as [Hc _]. split; [done|].
  by destruct (is_zero_char c).
Qed.

Lemma forallb_take_drop (m : nat) (ds : list ascii) :
  forallb is_digit ds = true ->
  forallb is_digit (take m ds) = true /\ forallb is_digit (drop m ds) = true.
Proof.
  intros H. rewrite <- (take_drop m ds), forallb_app in H. by apply andb_prop in H.
Qed.

Lemma parse_plain (neg : bool) (c : ascii) (ip : list ascii) :
  forallb is_digit (c :: ip) = true ->
  unsigned_decimal neg (c :: ip) = mk_number neg (c :: ip) 0.
Proof.
  intros H. pose proof (unsigned_decimal_int neg c ip [] 0 H I eq_refl) as E.
  by rewrite app_nil_r in E.
Qed.

Lemma parse_point (neg : bool) (c : ascii) (ip fp : list ascii) :
  forallb is_digit (c :: ip) = true -> forallb is_digit fp = true ->
  unsigned_decimal neg (c :: ip ++ "."%char :: fp)
  = mk_number neg (c :: ip ++ fp) (- Z.of_nat (length fp)).
Proof.
  intros H1 H2. pose proof (unsigned_decimal_frac neg c ip fp [] 0 H1 H2 I eq_refl) as E.
  by rewrite app_nil_r in E.
Qed.

Lemma exponent_stops (E : Z) : stops_digits (exponent E).
Proof. done. Qed.

Lemma parse_exp (neg : bool) (c : ascii) (E : Z) :
  is_digit c = true ->
  unsigned_decimal neg (c :: exponent E) = mk_number neg [c] E.
Proof.
  intros H.
  apply (unsigned_decimal_int neg c [] (exponent E) E);
    [by cbn; rewrite H|apply exponent_stops|apply exponent_part_print].
Qed.

Lemma parse_point_exp (neg : bool) (c : ascii) (fp : list ascii) (E : Z) :
  is_digit c = true -> forallb is_digit fp = true ->
  unsigned_decimal neg (c :: "."%char :: fp ++ exponent E)
  = mk_number neg (c :: fp) (E - Z.of_nat (length fp)).
Proof.
  intros H1 H2.
  apply (unsigned_decimal_frac neg c [] fp (exponent E) E);
    [by cbn; rewrite H1|done|apply exponent_stops|apply exponent_part_print].
Qed.

Lemma mk_number_trailing (neg : bool) (ds : list ascii) (b e : Z) :
  number_ok (Finite neg ds 0) = true -> 0 <= b ->
  mk_number neg (ds ++ zeros b) e = Finite neg ds (Z.of_nat (length ds) + b + e).
Proof. intros Hok Hb. exact (mk_number_digits neg ds 0 b e Hok Hb). Qed.

Lemma mk_number_leading (neg : bool) (ds : list ascii) (a e : Z) :
  number_ok (Finite neg ds 0) = true ->
  mk_number neg (zeros a ++ ds) e = Finite neg ds (Z.of_nat (length ds) + e).
Proof.
  intros Hok. pose proof (mk_number_digits neg ds a 0 e Hok (Z.le_refl 0)) as E.
  change (zeros 0) with (@nil ascii) in E. rewrite app_nil_r, Z.add_0_r in E. exact E.
Qed.

Lemma ends_digit (l a b : list ascii) :
  l = a ++ b -> forallb is_digit b = true -> b <> [] ->
  exists c' l', rev l = c' :: l' /\ is_digit c' = true.
Proof. intros -> Hb Hne. exact (rev_ends_digit a b Hb Hne). Qed.

Lemma ends_digit_all (c : ascii) (a : list ascii) :
  forallb is_digit (c :: a) = true ->
  exists c' l', rev (c :: a) = c' :: l' /\ is_digit c' = true.
Proof. intros H. exact (rev_ends_digit [] (c :: a) H ltac:(done)). Qed.

Lemma StringToNumber_toString neg ds n :
  number_ok (Finite neg ds n) = true ->
  StringToNumber (Number_toString (Finite neg ds n)) = Finite neg ds n.
Proof.
  intros Hok.
  assert (Hok0 : number_ok (Finite neg ds 0) = true) by exact Hok.
  destruct (number_ok_Finite _ _ _ Hok) as (c & ds' & -> & Hdig & Hc & Hz).
  unfold Number_toString. set (k := Z.of_nat (length (c :: ds'))).
  assert (Hk : 1 <= k) by (unfold k; cbn [length]; lia).
  destruct ((k <=? n) && (n <=? 21)) eqn:H1.
  { (* digits followed by zeros *)
    apply andb_prop in H1 as [Hkn _]. apply Z.leb_le in Hkn.
    assert (Hall : forallb is_digit (c :: ds' ++ zeros (n - k)) = true).
    { change (forallb is_digit ((c :: ds') ++ zeros (n - k)) = true).
      by rewrite forallb_app, Hdig, zeros_digits. }
    cbn [app]. rewrite StringToNumber_signed; [|done|by apply ends_digit_all|by left].
    rewrite parse_plain by done.
    change (c :: ds' ++ zeros (n - k)) with ((c :: ds') ++ zeros (n - k)).
    rewrite mk_number_trailing by (done || lia). f_equal. fold k. lia. }
  destruct ((0 <? n) && (n <=? 21)) eqn:H2.
  { (* a decimal point inside the digits *)
    apply andb_prop in H2 as [Hn0 Hn21]. apply Z.ltb_lt in Hn0.
    assert (Hnk : n < k).
    { destruct (k <=? n) eqn:E; [|by apply Z.leb_gt in E]. by rewrite Hn21 in H1. }
    destruct (Z.to_nat n) as [|m] eqn:Hm; [lia|].
    destruct (forallb_take_drop (S m) (c :: ds') Hdig) as [Htake Hdrop].
    assert (Hlen : Z.of_nat (length (drop (S m) (c :: ds'))) = k - n).
    { rewrite length_drop. unfold k. lia. }
    assert (Hne : drop (S m) (c :: ds') <> []).
    { intros E. rewrite E in Hlen. cbn in Hlen. lia. }
    cbn [take firstn app] in Htake |- *.
    rewrite StringToNumber_signed;
      [|done|by apply (ends_digit _ (c :: take m ds' ++ ["."%char])
                         (drop (S m) (c :: ds'))); [cbn; rewrite <- app_assoc|..]
       |by left].
    rewrite parse_point by done.
    change (c :: take m ds' ++ drop (S m) (c :: ds'))
      with (take (S m) (c :: ds') ++ drop (S m) (c :: ds')).
    rewrite take_drop, Hlen.
    change (c :: ds') with (zeros 0 ++ c :: ds') at 1.
    rewrite mk_number_leading by done. f_equal. fold k. lia. }
  destruct ((-6 <? n) && (n <=? 0)) eqn:H3.
  { (* zeros between the point and the digits *)
    apply andb_prop in H3 as [_ Hn0]. apply Z.leb_le in Hn0.
    assert (Hfp : forallb is_digit (zeros (- n) ++ c :: ds') = true)
      by (by rewrite forallb_app, Hdig, zeros_digits).
    rewrite (StringToNumber_signed neg "0" ("."%char :: zeros (- n) ++ c :: ds'));
      [|done| |by right].
    - pose proof (parse_point neg "0" [] (zeros (- n) ++ c :: ds') eq_refl Hfp) as E.
      cbn [app] in E. rewrite E; clear E. rewrite length_app, Nat2Z.inj_add, length_zeros by lia.
      replace ("0"%char :: zeros (- n) ++ c :: ds') with (zeros (1 - n) ++ c :: ds').
      + rewrite mk_number_leading by done. f_equal. fold k. lia.
      + unfold zeros. replace (Z.to_nat (1 - n)) with (S (Z.to_nat (- n))) by lia. done.
    - by apply (ends_digit _ ("0"%char :: "."%char :: zeros (- n)) (c :: ds')). }
  (* exponential notation *)
  destruct ds' as [|d ds'].
  - fold (exponent (n - 1)).
    rewrite StringToNumber_signed; [|done| |by left].
    + rewrite parse_exp by done.
      change [c] with (zeros 0 ++ [c]). rewrite mk_number_leading by done.
      f_equal. cbn [length]. lia.
    + apply (ends_digit _ [c; "e"%char; if n - 1 <? 0 then "-"%char else "+"%char]
               (string_of_Z_abs (n - 1))).
      * done.
      * unfold string_of_Z_abs. destruct (N_to_uint_string (Z.abs_N (n - 1))) as [-> _].
        apply digits_all.
      * unfold string_of_Z_abs. destruct (N_to_uint_string (Z.abs_N (n - 1))) as [-> H].
        exact H.
  - fold (exponent (n - 1)).
    assert (Hrest : forallb is_digit (d :: ds') = true).
    { cbn in Hdig. by apply andb_prop in Hdig as [_ ?]. }
    rewrite StringToNumber_signed; [|done| |by left].
    + rewrite parse_point_exp by done.
      change (c :: d :: ds') with (zeros 0 ++ c :: d :: ds').
      rewrite mk_number_leading by done. f_equal. fold k. unfold k. cbn [length]. lia.
    + apply (ends_digit _ (c :: "."%char :: (d :: ds')
                             ++ ["e"%char; if n - 1 <? 0 then "-"%char else "+"%char])
               (string_of_Z_abs (n - 1))).
      * cbn. by rewrite <- app_assoc.
      * unfold string_of_Z_abs. destruct (N_to_uint_string (Z.abs_N (n - 1))) as [-> _].
        apply digits_all.
      * unfold string_of_Z_abs. destruct (N_to_uint_string (Z.abs_N (n - 1))) as [-> H].
        exact H.
Qed.

Lemma toStr_parses_back (x : number) :
  number_ok x = true -> StringToNumber (toStr (VNum x)) = x.
Proof.
  intros Hok. destruct x as [|[]|[]|neg ds n]; try reflexivity.
  unfold toStr, baseToString. cbn [ToString Number is_neg_zero].
  rewrite andb_false_r. by apply StringToNumber_toString.
Qed.

(** ** What a push and a pull make of a setting, by the type of its default *)

Lemma split_chars_length (l cur : list ascii) :
  length (split_chars l cur)
  = S (length (filter (fun c => is_char c "," = true) l)).
Proof.
  revert cur. induction l as [|c l IH]; intros cur; [done|]. cbn [split_chars].
  rewrite filter_cons. destruct (is_char c ",") eqn:Hc.
  - rewrite decide_True by done. cbn [length]. by rewrite IH.
  - rewrite decide_False by (by intros ?). apply IH.
Qed.

Lemma lookup_encodePrefs (x : object) (k : string) (v : value) :
  x !! k = Some v -> encodePrefs x !! k = Some (VStr (encode v)).
Proof. intros H. unfold encodePrefs. by rewrite lookup_fmap, H. Qed.

Section ByType.

Variable JSON_parse : string -> option value.
Variable settingState : object.

Local Abbreviation cast := (cast JSON_parse settingState).
Local Abbreviation castResponse := (castResponse JSON_parse settingState).
Local Abbreviation castPrefs := (castPrefs JSON_parse settingState).
Local Abbreviation pulled := (pulled JSON_parse settingState).

Lemma pulled_own (o : object) (k : string) (dv v : value) :
  settingState !! k = Some dv -> o !! k = Some v ->
  pulled o !! k = Some (default v (cast k v)).
Proof.
  intros Hk Ho. rewrite lookup_pulled, Ho. unfold has. by rewrite Hk.
Qed.

Lemma get_own (k : string) (dv : value) :
  settingState !! k = Some dv -> get settingState k = dv.
Proof. intros H. unfold get. by rewrite H. Qed.

(** X5: castResponse gives a preference the type of its default setting.
    For a key the default settings state defines, a remote string becomes a
    boolean, a number, an array, null or an object when the default is one
    (an array exactly when the default is an array, null exactly when it is
    null); when the default is a string, undefined or a function the string
    is left as it is. *)
Theorem castResponse_follows_default (data : loc) (w : World)
    (d : DisplayPreferencesDto) (o : object) (key s : string) (dv : value) :
  heap w !! data = Some d ->
  CustomPrefs d = Some o ->
  o !! key = Some (VStr s) ->
  settingState !! key = Some dv ->
  exists o' v',
    castResponse data w = (Ok data, put data w d o')
    /\ o' !! key = Some v'
    /\ match typeof dv with
       | t_boolean | t_number | t_object =>
           typeof v' = typeof dv
           /\ Array_isArray v' = Array_isArray dv
           /\ (dv = VNull <-> v' = VNull)
       | _ => v' = VStr s
       end.
Proof.
  intros Hd Ho Hs Hdv. exists (castPrefs o), (default (VStr s) (cast key (VStr s))).
  split; [by apply castResponse_run|]. split; [by rewrite lookup_castPrefs, Hs|].
  unfold Store.cast. rewrite (get_own key dv Hdv).
  destruct dv; cbn; try done; repeat split; done.
Qed.

(** X6: for a key whose default is a boolean, a pull turns the empty string
    into [false] and every other string into [true]; so a boolean setting,
    pushed as [true] or [false], always comes back [true]. *)
Theorem boolean_comes_back_true (k : string) (dflt : bool) :
  settingState !! k = Some (VBool dflt) ->
  (forall o s, o !! k = Some (VStr s) ->
               pulled o !! k = Some (VBool (negb (String.eqb s ""))))
  /\ (forall x b, x !! k = Some (VBool b) ->
                  pulled (encodePrefs x) !! k = Some (VBool true)).
Proof.
  intros Hk.
  assert (Hcast : forall v, cast k v = Some (VBool (Boolean v))).
  { intros v. unfold Store.cast. by rewrite (get_own k _ Hk). }
  split.
  - intros o s Ho. by rewrite (pulled_own o k _ _ Hk Ho), Hcast.
  - intros x b Hx.
    rewrite (pulled_own _ k _ _ Hk (lookup_encodePrefs x k _ Hx)), Hcast.
    by destruct b.
Qed.

Lemma pulled_number_back (k : string) (dflt n : number) (x : object) :
  settingState !! k = Some (VNum dflt) ->
  x !! k = Some (VNum n) ->
  number_ok n = true ->
  pulled (encodePrefs x) !! k = Some (VNum n).
Proof.
  intros Hk Hx Hok.
  rewrite (pulled_own _ k _ _ Hk (lookup_encodePrefs x k _ Hx)).
  unfold Store.cast. rewrite (get_own k _ Hk).
  cbn [typeof type_name_eqb default Number].
  change (encode (VNum n)) with (toStr (VNum n)). by rewrite toStr_parses_back.
Qed.

(** X7: a number setting survives the round trip.  For a key whose default
    is a number, a Number pushed and pulled back is the same Number: NaN,
    the infinities, both zeros, and every finite Number in any of the
    notations [toString] prints (plain digits, a decimal point, leading
    zeros after the point, an exponent). *)
Theorem number_round_trip (k : string) (dflt n : number) (x : object) :
  settingState !! k = Some (VNum dflt) ->
  x !! k = Some (VNum n) ->
  number_ok n = true ->
  pulled (encodePrefs x) !! k = Some (VNum n).
Proof. apply pulled_number_back. Qed.

(** X9: a string setting passes through unchanged.  For a key whose default
    is a string, a pull leaves the remote string as it is, and a string
    pushed and pulled back is the same string. *)
Theorem string_round_trip (k dflt s : string) :
  settingState !! k = Some (VStr dflt) ->
  (forall o, o !! k = Some (VStr s) -> pulled o !! k = Some (VStr s))
  /\ (forall x, x !! k = Some (VStr s) -> pulled (encodePrefs x) !! k = Some (VStr s)).
Proof.
  intros Hk.
  assert (Hcast : forall v, cast k v = None).
  { intros v. unfold Store.cast. by rewrite (get_own k _ Hk). }
  split.
  - intros o Ho. by rewrite (pulled_own o k _ _ Hk Ho), Hcast.
  - intros x Hx. by rewrite (pulled_own _ k _ _ Hk (lookup_encodePrefs x k _ Hx)), Hcast.
Qed.

(** X10: for a key whose default is an array, a pull makes of a remote
    string a sequence with one element more than the string has commas: the
    sequence is never empty, and the empty string gives one element. *)
Theorem sequence_is_never_empty (k : string) (dflt : list value) (o : object) (s : string) :
  settingState !! k = Some (VArr dflt) ->
  o !! k = Some (VStr s) ->
  exists l, pulled o !! k = Some (VArr l)
            /\ l = map (destr JSON_parse) (split_comma s)
            /\ length l = S (count_commas s).
Proof.
  intros Hk Ho. exists (map (destr JSON_parse) (split_comma s)).
  split; [|split; [done|]].
  - rewrite (pulled_own o k _ _ Hk Ho). unfold Store.cast. by rewrite (get_own k _ Hk).
  - rewrite length_map. apply split_chars_length.
Qed.

End ByType.

(** ** Requests and notifications of the two actions *)

#[local] Instance same_committed_frame : Frame same_committed.
Proof.
  split; [split|..]; unfold same_committed; try done.
  intros w1 w2 w3 H1 H2. congruence.
Qed.

Lemma sync_block_snackbar (body : M unit) (msg : SnackbarMessage) (w : World) :
  snackbar (sync_block body msg w).2
  = snackbar (body (with_state (SYNCING_STARTED (now w)) w)).2
    ++ (if returned (body (with_state (SYNCING_STARTED (now w)) w)).1 then [] else [msg]).
Proof.
  rewrite sync_block_run. cbn [snd]. unfold try_catch.
  destruct (body _) as [[[]|e] w']; cbn; [by rewrite app_nil_r|done].
Qed.

Lemma fetched_None_fails {A} (env : Env) (w : World) (k : Z * loc -> M A) :
  fetched env = None ->
  exists e w',
    (response <- api_getDisplayPreferences env ;;
     (if negb (fst response =? 200) then throw (status_error "get" (fst response))
      else ret tt) ;;
     k response) w = (Throw e, w')
    /\ snackbar w' = snackbar w
    /\ requests w' = requests w ++ [GetDisplayPreferences].
Proof.
  unfold fetched. intros Hf.
  destruct (getReply env) as [t|t status body] eqn:Hreply.
  - rewrite (bind_throw _ _ _ _ _ (getDisplayPreferences_rejected env w t Hreply)).
    by eexists _, _.
  - rewrite (bind_ok _ _ _ _ _ (getDisplayPreferences_resolved env w _ _ _ Hreply)).
    cbn [fst snd]. destruct (status =? 200); [done|]. by eexists _, _.
Qed.

Lemma sendCustomPrefs_outcome (env : Env) (l : loc) (w : World)
    (d : DisplayPreferencesDto) :
  heap w !! l = Some d ->
  exists r w',
    sendCustomPrefs env l w = (r, w')
    /\ returned r = update_accepted env
    /\ snackbar w' = snackbar w.
Proof.
  intros Hd. unfold sendCustomPrefs, api_updateDisplayPreferences, update_accepted.
  unfold bind at 1. unfold bind at 1. rewrite (deref_ok _ _ _ Hd).
  unfold bind at 1, modify at 1.
  destruct (updateReply env) as [t|t status []]; cbn [await].
  - by eexists _, _.
  - unfold bind, modify, ret. cbn [fst].
    destruct (status =? 204); by eexists _, _.
Qed.

Lemma pushState_try_outcome (env : Env) (w : World) :
  exists r w',
    pushState_try env w = (r, w')
    /\ returned r = push_succeeds env
    /\ snackbar w' = snackbar w.
Proof.
  unfold push_succeeds. destruct (fetched env) as [body|] eqn:Hf.
  - unfold pushState_try.
    edestruct (fetched_Some_continues (A:=unit) env w) as [t Hrun]; [exact Hf|].
    rewrite Hrun; clear Hrun.
    cbn [snd]. set (l := fresh _). set (w2 := with_heap _ _).
    assert (Hl : heap w2 !! l = Some body) by apply lookup_insert_eq.
    rewrite (bind_ok _ _ _ _ _ (set_CustomPrefs_ok l w2 body (Some ∅) Hl)).
    set (d3 := {| CustomPrefs := Some ∅; OtherProps := OtherProps body |}).
    set (w3 := with_heap _ w2).
    unfold bind at 1, read at 1.
    set (w4 := if Boolean (get (settings w3) "status")
               then with_settings (delete "status") w3 else w3).
    assert (Hstrip : forall k : unit -> M unit,
              ((if Boolean (get (settings w3) "status")
                then modify (with_settings (delete "status")) else ret tt) ;; k tt) w3
              = k tt w4).
    { intros k. unfold w4. by destruct (Boolean _). }
    rewrite (Hstrip (fun _ => fillCustomPrefs l ;; sendCustomPrefs env l)).
    assert (Hk4 : snackbar w4 = snackbar w).
    { unfold w4. by destruct (Boolean _). }
    assert (Hl4 : heap w4 !! l = Some d3).
    { unfold w4. destruct (Boolean _); apply lookup_insert_eq. }
    rewrite (bind_ok _ _ _ _ _ (fillCustomPrefs_run l w4 d3 Hl4 eq_refl)).
    set (w5 := put l w4 d3 _).
    destruct (sendCustomPrefs_outcome env l w5 _ (lookup_insert_eq _ _ _))
      as (r & w' & -> & Hr & Hs).
    exists r, w'. split; [done|]. split; [by rewrite Hr|]. by rewrite Hs.
  - unfold pushState_try.
    destruct (fetched_None_fails env w
                (fun responseFetch =>
                   set_CustomPrefs (snd responseFetch) (Some ∅) ;;
                   status <- read (fun w => get (settings w) "status") ;;
                   (if Boolean status then modify (with_settings (delete "status"))
                    else ret tt) ;;
                   fillCustomPrefs (snd responseFetch) ;;
                   sendCustomPrefs env (snd responseFetch)) Hf)
      as (e & w' & Hrun & Hs & _).
    exists (Throw e), w'. split; [exact Hrun|]. by split.
Qed.

Section Reports.

Variable JSON_parse : string -> option value.
Variable settingState : object.

Local Abbreviation castResponse := (castResponse JSON_parse settingState).
Local Abbreviation castPrefs := (castPrefs JSON_parse settingState).
Local Abbreviation pulled := (pulled JSON_parse settingState).
Local Abbreviation initState_try := (initState_try JSON_parse settingState).
Local Abbreviation initState := (initState JSON_parse settingState).

Lemma initState_try_outcome (env : Env) (w : World) :
  exists r w',
    initState_try env w = (r, w')
    /\ returned r = pull_succeeds env
    /\ snackbar w' = snackbar w
    /\ requests w' = requests w ++ [GetDisplayPreferences].
Proof.
  unfold pull_succeeds. destruct (fetched env) as [body|] eqn:Hf.
  - unfold Store.initState_try.
    edestruct (fetched_Some_continues (A:=unit) env w) as [t Hrun]; [exact Hf|].
    rewrite Hrun; clear Hrun.
    cbn [snd]. set (l := fresh _). set (w2 := with_heap _ _).
    assert (Hl : heap w2 !! l = Some body) by apply lookup_insert_eq.
    destruct (CustomPrefs body) as [o|] eqn:Ho.
    + rewrite (bind_ok _ _ _ _ _ (castResponse_run JSON_parse settingState l w2 body o Hl Ho)).
      set (w3 := put l w2 body _).
      set (d3 := {| CustomPrefs := Some (castPrefs o); OtherProps := OtherProps body |}).
      assert (Hl3 : heap w3 !! l = Some d3) by apply lookup_insert_eq.
      rewrite (bind_ok _ _ _ _ _ (deref_ok l w3 d3 Hl3)). cbn [CustomPrefs d3].
      rewrite (bind_ok _ _ _ _ _
                 (for_of_delete l (fun key => has key settingState) _ w3 d3 _ Hl3 eq_refl)).
      set (w4 := put l w3 d3 _).
      set (d4 := {| CustomPrefs := Some (pulled o); OtherProps := OtherProps d3 |}).
      assert (Hl4 : heap w4 !! l = Some d4) by apply lookup_insert_eq.
      rewrite (bind_ok _ _ _ _ _ (deref_ok l w4 d4 Hl4)).
      by eexists _, _.
    + rewrite (bind_throw _ _ _ _ _
                 (castResponse_null JSON_parse settingState l w2 body Hl Ho)).
      by eexists _, _.
  - unfold Store.initState_try.
    destruct (fetched_None_fails env w
                (fun response =>
                   data <- castResponse (snd response) ;;
                   d <- deref data ;;
                   match CustomPrefs d with
                   | Some o =>
                       for_of (map_to_list o).*1 (fun key =>
                         if negb (has key settingState) then CustomPrefs_delete data key
                         else ret tt) ;;
                       d' <- deref data ;;
                       commit_settings_INIT_STATE (default ∅ (CustomPrefs d'))
                   | None => ret tt
                   end) Hf)
      as (e & w' & Hrun & Hs & Hr).
    exists (Throw e), w'. split; [exact Hrun|]. by split.
Qed.

(** X11: a pull only reads from the server.  A run of initState makes
    exactly one request, the fetch, when the user is logged in, and none
    otherwise; it never sends an update. *)
Theorem initState_only_fetches (env : Env) (w : World) :
  requests (initState env w).2
  = requests w ++ (if loggedIn env then [GetDisplayPreferences] else []).
Proof.
  unfold Store.initState. destruct (loggedIn env); [|by cbn; rewrite app_nil_r].
  etrans; [by apply (sync_block_proj requests)|].
  by destruct (initState_try_outcome env (with_state (SYNCING_STARTED (now w)) w))
    as (r & w' & -> & _ & _ & Hr).
Qed.

(** X12: a failed pull is reported once, a successful one not at all.  A
    run of initState adds the message [failedRetrievingDisplayPreferences]
    (colour [error]) to the snackbar exactly when the user is logged in and
    the fetch was rejected, came back with a status other than 200, or
    brought a document without custom preferences; otherwise the snackbar
    is unchanged. *)
Theorem initState_reports_failure (env : Env) (w : World) :
  snackbar (initState env w).2
  = snackbar w
    ++ (if loggedIn env && negb (pull_succeeds env) then [retrieving_failed] else []).
Proof.
  unfold Store.initState. destruct (loggedIn env); [|by cbn; rewrite app_nil_r].
  etrans; [apply sync_block_snackbar|].
  destruct (initState_try_outcome env (with_state (SYNCING_STARTED (now w)) w))
    as (r & w' & -> & Hr & Hs & _).
  cbn [fst snd andb]. rewrite Hr, Hs. by destruct (pull_succeeds env).
Qed.

(** X14: neither sync touches LastSettingChange, and a push commits nothing
    to the settings store. *)
Theorem syncs_leave_LastSettingChange (env : Env) (w : World) :
  LastSettingChange (state (initState env w).2) = LastSettingChange (state w)
  /\ LastSettingChange (state (pushState env w).2) = LastSettingChange (state w)
  /\ committed (pushState env w).2 = committed w.
Proof.
  split; [|split].
  - by apply (respects_initState same_LastSettingChange JSON_parse settingState env).
  - by apply (respects_pushState same_LastSettingChange env).
  - by apply (respects_pushState same_committed env).
Qed.

(** X15: the edge cases of castResponse.  On a document whose custom
    preferences are null or missing it throws a TypeError and changes
    nothing; on a document whose custom preferences are empty it returns the
    document and changes nothing. *)
Theorem castResponse_without_entries (data : loc) (w : World)
    (d : DisplayPreferencesDto) :
  heap w !! data = Some d ->
  (CustomPrefs d = None -> castResponse data w = (Throw TypeError, w))
  /\ (CustomPrefs d = Some ∅ -> castResponse data w = (Ok data, w)).
Proof.
  intros Hd. split; intros Ho.
  - by apply castResponse_null with d.
  - rewrite (castResponse_run JSON_parse settingState data w d ∅ Hd Ho).
    f_equal. by apply (put_same data w d).
Qed.

End Reports.

(** X13: a failed push is reported once, a successful one not at all.  A
    run of pushState adds the message [failedSettingDisplayPreferences]
    (colour [error]) to the snackbar exactly when the user is logged in and
    the fetch did not resolve with status 200 or the update did not resolve
    with status 204; otherwise the snackbar is unchanged. *)
Theorem pushState_reports_failure (env : Env) (w : World) :
  snackbar (pushState env w).2
  = snackbar w
    ++ (if loggedIn env && negb (push_succeeds env) then [setting_failed] else []).
Proof.
  unfold pushState. destruct (loggedIn env); [|by cbn; rewrite app_nil_r].
  etrans; [apply sync_block_snackbar|].
  destruct (pushState_try_outcome env (with_state (SYNCING_STARTED (now w)) w))
    as (r & w' & -> & Hr & Hs).
  cbn [fst snd andb]. rewrite Hr, Hs. by destruct (push_succeeds env).
Qed.

Lemma strip_status_falsy (store : object) :
  Boolean (get (strip_status store) "status") = false.
Proof.
  unfold strip_status. destruct (Boolean (get store "status")) eqn:H; [|done].
  unfold get. by rewrite lookup_delete_eq.
Qed.

Lemma push_settings_falsy (env : Env) (store : object) :
  Boolean (get store "status") = false -> push_settings env store = store.
Proof.
  intros H. unfold push_settings, strip_status. rewrite H.
  by destruct (loggedIn env), (fetched env).
Qed.

(** X16: once a push has fetched the document, the settings store holds no
    truthy [status], and no later push, whatever the server replies,
    changes the store again. *)
Theorem later_pushes_keep_the_store (env : Env) (w : World) :
  loggedIn env = true ->
  is_Some (fetched env) ->
  Boolean (get (settings (pushState env w).2) "status") = false
  /\ forall env', settings (pushState env' (pushState env w).2).2
                  = settings (pushState env w).2.
Proof.
  intros Hlog [body Hf].
  assert (Hs : settings (pushState env w).2 = strip_status (settings w)).
  { destruct (pushState_store env w) as [-> _]. unfold push_settings.
    by rewrite Hlog, Hf. }
  assert (Hfalsy : Boolean (get (settings (pushState env w).2) "status") = false)
    by (rewrite Hs; apply strip_status_falsy).
  split; [done|]. intros env'.
  destruct (pushState_store env' (pushState env w).2) as [-> _].
  by apply push_settings_falsy.
Qed.

(** ** Concrete runs of the further properties *)

Lemma castResponse_follows_default_witness :
  exists o' v',
    castResponse JSON_rejects schema 1%positive (received {[ "darkMode" := VStr "x" ]})
    = (Ok 1%positive,
       put 1%positive (received {[ "darkMode" := VStr "x" ]})
         (document {[ "darkMode" := VStr "x" ]}) o')
    /\ o' !! "darkMode" = Some v'
    /\ (typeof v' = t_boolean
        /\ Array_isArray v' = false
        /\ (VBool false = VNull <-> v' = VNull)).
Proof.
  apply (castResponse_follows_default JSON_rejects schema 1%positive
           (received {[ "darkMode" := VStr "x" ]})
           (document {[ "darkMode" := VStr "x" ]})
           {[ "darkMode" := VStr "x" ]} "darkMode" "x" (VBool false)).
  - reflexivity.
  - reflexivity.
  - reflexivity.
  - reflexivity.
Defined.

Lemma boolean_comes_back_true_witness :
  (forall o s, o !! "darkMode" = Some (VStr s) ->
               pulled JSON_rejects schema o !! "darkMode"
               = Some (VBool (negb (String.eqb s ""))))
  /\ (forall x b, x !! "darkMode" = Some (VBool b) ->
                  pulled JSON_rejects schema (encodePrefs x) !! "darkMode"
                  = Some (VBool true)).
Proof.
  apply (boolean_comes_back_true JSON_rejects schema "darkMode" false).
  reflexivity.
Defined.

Lemma number_round_trip_witness :
  pulled JSON_rejects schema (encodePrefs {[ "volume" := VNum tiny ]}) !! "volume"
  = Some (VNum tiny).
Proof.
  apply (number_round_trip JSON_rejects schema "volume" one tiny
           {[ "volume" := VNum tiny ]}).
  - reflexivity.
  - reflexivity.
  - reflexivity.
Defined.

Lemma string_round_trip_witness :
  (forall o, o !! "locale" = Some (VStr "en-US") ->
             pulled JSON_rejects schema_locale o !! "locale" = Some (VStr "en-US"))
  /\ (forall x, x !! "locale" = Some (VStr "en-US") ->
                pulled JSON_rejects schema_locale (encodePrefs x) !! "locale"
                = Some (VStr "en-US")).
Proof.
  apply (string_round_trip JSON_rejects schema_locale "locale" "auto" "en-US").
  reflexivity.
Defined.

Lemma sequence_is_never_empty_witness :
  exists l, pulled JSON_rejects schema {[ "tags" := VStr "" ]} !! "tags" = Some (VArr l)
            /\ l = map (destr JSON_rejects) (split_comma "")
            /\ length l = S (count_commas "").
Proof.
  apply (sequence_is_never_empty JSON_rejects schema "tags" []
           {[ "tags" := VStr "" ]} "").
  - reflexivity.
  - reflexivity.
Defined.

Lemma castResponse_without_entries_witness :
  castResponse JSON_rejects schema 1%positive
    (with_heap (insert 1%positive bare_document) (world defaultState ∅))
  = (Throw TypeError, with_heap (insert 1%positive bare_document) (world defaultState ∅))
  /\ castResponse JSON_rejects schema 1%positive (received ∅)
     = (Ok 1%positive, received ∅).
Proof.
  split.
  - apply (castResponse_without_entries JSON_rejects schema 1%positive
             (with_heap (insert 1%positive bare_document) (world defaultState ∅))
             bare_document); reflexivity.
  - apply (castResponse_without_entries JSON_rejects schema 1%positive
             (received ∅) (document ∅)); reflexivity.
Defined.

Lemma later_pushes_keep_the_store_witness :
  Boolean (get (settings (pushState (server ∅)
                            (world defaultState {[ "status" := VStr "ok" ]})).2)
             "status") = false
  /\ forall env',
       settings (pushState env'
                   (pushState (server ∅)
                      (world defaultState {[ "status" := VStr "ok" ]})).2).2
       = settings (pushState (server ∅)
                     (world defaultState {[ "status" := VStr "ok" ]})).2.
Proof.
  apply (later_pushes_keep_the_store (server ∅)
           (world defaultState {[ "status" := VStr "ok" ]})).
  - reflexivity.
  - exists (document ∅). reflexivity.
Defined.

End Props.
